(** * Immich Upload Optimizer: the upload job, the conversion pipeline and
      the checksum rewriter, embedded from [tasks.go] and [helpers.go]. *)

From Stdlib Require Import ZArith Lia Bool.
From Stdlib Require Import Strings.Ascii.
From Stdlib Require Strings.String Strings.Byte.
From Stdlib Require Import Numbers.DecimalString.
From stdpp Require Import base option list gmap strings.

Open Scope Z_scope.

(** ** Byte slices ([helpers.go], [replaceAllBytes]) *)

Abbreviation byte := Byte.byte.

#[global] Instance byte_eq_dec : EqDecision byte := Byte.byte_eq_dec.

(** [bytes.HasPrefix(s, sep)]: [s] starts with [sep]. *)
Definition bytes_HasPrefix (s sep : list byte) : bool :=
  bool_decide (take (length sep) s = sep).

(** [bytes.Index(s, sep)]: the index of the first instance of [sep] in [s],
    or [-1] when [sep] is not present. The empty [sep] is found at [0]. *)
Fixpoint bytes_Index (s sep : list byte) : Z :=
  if bytes_HasPrefix s sep then 0
  else match s with
       | [] => -1
       | _ :: s' =>
           let i := bytes_Index s' sep in if i =? -1 then -1 else i + 1
       end.

(** [s[offset:]] for a Go [int] offset within range. *)
Definition slice_from (s : list byte) (offset : Z) : list byte :=
  drop (Z.to_nat offset) s.

(** The builtin [copy(dst, src)]: overwrites the first
    [min(len(dst), len(src))] bytes of [dst]; the length of [dst] stays. *)
Definition copy (dst src : list byte) : list byte :=
  take (length dst) src ++ drop (length src) dst.

(** [copy(byteSlice[offset:], src)] writes through to the shared backing
    array: the bytes before [offset] are untouched. *)
Definition copy_at (byteSlice : list byte) (offset : Z) (src : list byte)
  : list byte :=
  take (Z.to_nat offset) byteSlice ++ copy (slice_from byteSlice offset) src.

(** The [for] loop of [replaceAllBytes]. One unit of fuel per iteration;
    [None] means the fuel ran out before the loop reached its [break]. *)
Fixpoint replaceAllBytes_loop (fuel : nat) (byteSlice old new : list byte)
    (offset : Z) : option (list byte) :=
  match fuel with
  | O => None
  | S fuel' =>
      let i := bytes_Index (slice_from byteSlice offset) old in
      if i =? -1 then Some byteSlice
      else
        let offset := offset + i in
        let byteSlice := copy_at byteSlice offset new in
        let offset := offset + Z.of_nat (length new) in
        replaceAllBytes_loop fuel' byteSlice old new offset
  end.

Definition replaceAllBytes (fuel : nat) (byteSlice old new : list byte)
  : option (list byte) :=
  let oldLen := Z.of_nat (length old) in
  let newLen := Z.of_nat (length new) in
  if newLen >? oldLen then Some byteSlice
  else replaceAllBytes_loop fuel byteSlice old new 0.

(** [old] occurs in [s]: some window of [s] equals [old]. *)
Definition occurs (old s : list byte) : Prop :=
  exists pre post, s = pre ++ old ++ post.

(** ** Strings and paths (the [strings] and [path] calls of [tasks.go]) *)

Abbreviation chars := String.list_ascii_of_string.
Abbreviation of_chars := String.string_of_list_ascii.

Definition newline : string := String.String (ascii_of_nat 10) "".

(** [fmt.Sprintf("%d", n)]. *)
Definition Zs (n : Z) : string := NilEmpty.string_of_int (Z.to_int n).

(** [strings.HasPrefix] and [strings.TrimPrefix]. *)
Definition strings_HasPrefix (s prefix : string) : bool :=
  bool_decide (take (String.length prefix) (chars s) = chars prefix).

Definition strings_TrimPrefix (s prefix : string) : string :=
  if strings_HasPrefix s prefix
  then of_chars (drop (String.length prefix) (chars s))
  else s.

(** [strings.HasSuffix] and [strings.TrimSuffix]. *)
Definition strings_HasSuffix (s suffix : string) : bool :=
  (String.length suffix <=? String.length s)%nat
  && bool_decide
       (drop (String.length s - String.length suffix) (chars s) = chars suffix).

Definition strings_TrimSuffix (s suffix : string) : string :=
  if strings_HasSuffix s suffix
  then of_chars (take (String.length s - String.length suffix) (chars s))
  else s.

(** [strings.ToLower] on ASCII letters; other bytes are kept. The only
    caller lowers an extension that already passed [isValidFilename], so every
    byte it sees is ASCII. *)
Definition lower_char (c : ascii) : ascii :=
  let n := N_of_ascii c in
  if ((65 <=? n) && (n <=? 90))%N then ascii_of_N (n + 32) else c.

Definition strings_ToLower (s : string) : string :=
  of_chars (map lower_char (chars s)).

(** The backwards scan of [path.Ext]: [r] is the part of the path not yet
    visited, last byte first; [acc] is the part already visited. *)
Fixpoint ext_scan (r acc : list ascii) : list ascii :=
  match r with
  | [] => []
  | c :: r' =>
      if bool_decide (c = "/"%char) then []
      else if bool_decide (c = "."%char) then c :: acc
      else ext_scan r' (c :: acc)
  end.

(** [path.Ext(p)]: the suffix beginning at the final dot in the final
    slash-separated element of [p]; empty when there is no dot. *)
Definition path_Ext (p : string) : string :=
  of_chars (ext_scan (rev (chars p)) []).

(** [path.Join(dir, name)] for a clean directory path and the name of one of
    its entries, where [path.Clean] has nothing to rewrite. *)
Definition path_Join (dir name : string) : string :=
  dir +:+ "/" +:+ name.

(** [isValidFilename]: the regular expression [^[a-zA-Z0-9._-]+$]. *)
Definition valid_char (c : ascii) : bool :=
  let n := N_of_ascii c in
  ((97 <=? n) && (n <=? 122) || (65 <=? n) && (n <=? 90)
   || (48 <=? n) && (n <=? 57)
   || (n =? 46) || (n =? 95) || (n =? 45))%N.

Definition isValidFilename (s : string) : bool :=
  match chars s with
  | [] => false
  | cs => forallb valid_char cs
  end.

(** [fmt.Sprintf("%.2f", float64(size)/unit)] for [unit] a power of two.
    The conversion and the division are exact for [0 <= size < 2^53], and
    the formatter rounds the exact value to nearest, ties to even. *)
Definition two_digits (d : Z) : string :=
  if d <? 10 then "0" +:+ Zs d else Zs d.

Definition fmt_2f (size unit : Z) : string :=
  let q := (size * 100) / unit in
  let r := (size * 100) mod unit in
  let h := if 2 * r <? unit then q
           else if unit <? 2 * r then q + 1
           else if Z.even q then q else q + 1 in
  Zs (h / 100) +:+ "." +:+ two_digits (h mod 100).

Definition KB : Z := 2 ^ 10.
Definition MB : Z := 2 ^ 20.
Definition GB : Z := 2 ^ 30.
Definition TB : Z := 2 ^ 40.

Definition humanReadableSize (size : Z) : string :=
  if TB <=? size then fmt_2f size TB +:+ " TB"
  else if GB <=? size then fmt_2f size GB +:+ " GB"
  else if MB <=? size then fmt_2f size MB +:+ " MB"
  else if KB <=? size then fmt_2f size KB +:+ " KB"
  else Zs size +:+ " bytes".

Definition imageExtensions : list string :=
  ["3fr"; "ari"; "arw"; "cap"; "cin"; "cr2"; "cr3"; "crw"; "dcr"; "dng";
   "erf"; "fff"; "iiq"; "k25"; "kdc"; "mrw"; "nef"; "nrw"; "orf"; "ori";
   "pef"; "psd"; "raf"; "raw"; "rw2"; "rwl"; "sr2"; "srf"; "srw"; "x3f";
   "avif"; "gif"; "jpeg"; "jpg"; "png"; "webp"; "bmp"; "heic"; "heif"; "hif";
   "insp"; "jp2"; "jpe"; "jxl"; "svg"; "tif"; "tiff"].

(** [slices.Contains] on strings. *)
Definition slices_Contains (l : list string) (x : string) : bool :=
  bool_decide (x ∈ l).


(** ** Data model ([tasks.go]) *)

(** A Go [error] value, by its message; [nil] is [None] of [option error]. *)
Definition error : Type := string.

(** A Go result pair [(value, err)] of which exactly one side is set. *)
Inductive result (A : Type) : Type :=
| Ok (a : A)
| Err (e : error).
Arguments Ok {A} a.
Arguments Err {A} e.

(** How a Go call ends: it returns, or it panics and unwinds (running the
    deferred calls of every frame on the way). *)
Inductive outcome (A : Type) : Type :=
| Returned (a : A)
| Panicked.
Arguments Returned {A} a.
Arguments Panicked {A}.

(** An open file handle: the multipart form file of the request, or an
    [*os.File] on a path. *)
Inductive File : Type :=
| MultipartFile
| OsFile (path : string).

(** [multipart.FileHeader]: the client-declared name and size. *)
Record FileHeader : Type := {
  Filename : string;
  Size : Z
}.

(** Modelled from the spec: the declarations of [Task] and [Config] are not
    among the sources; the fields are the ones [tasks.go] reads (a rule
    with its matched extensions, minimum input size and command template). *)
Record Task : Type := {
  Name : string;
  Extensions : list string;
  MinFilesizeBytes : Z;
  CommandTemplate : string
}.

Record Config : Type := {
  Tasks : list Task
}.

Record customLogger : Type := {
  prefix : string
}.

Definition newCustomLogger (baseLogger : customLogger)
    (additionalPrefix : string) : customLogger :=
  {| prefix := prefix baseLogger +:+ additionalPrefix |}.

Record TaskProcessor : Type := {
  tpTask : Task;
  OriginalFile : option File;
  OriginalFilename : string;
  OriginalExtension : string;
  OriginalSize : Z;
  tempOriginalFilePath : string;
  ProcessedFile : option File;
  ProcessedFilename : string;
  ProcessedExtension : string;
  ProcessedSize : Z;
  tempWorkDir : string;
  logger : option customLogger
}.

(** The request as [newJob] reads it: the outcome of
    [r.FormFile(filterFormKey)]. *)
Record Request : Type := {
  FormFile : result FileHeader
}.

Definition filterFormKey : string := "assetData".

(** The two semaphores of [Run]. *)
Inductive Pool : Type := ImagePool | VideoPool.

(** What a job does to the outside. *)
Inductive Event : Type :=
| EvLog (line : string)
| EvHttpError (message : string) (code : Z)
| EvUploadUpstream (file : option File) (name : string)
| EvRelay (status : Z)
| EvCommand (cmdLine : string)
| EvAcquire (p : Pool)
| EvRelease (p : Pool)
| EvCloseFormFile
| EvRemoveMultipart.

(** An entry of the temporary file system. A produced file is an entry of
    its work directory and goes away with it. *)
Inductive Node : Type :=
| TempFile
| TempDir (entries : list string).

(** The process state a job reads and writes. The trace holds the events
    so far, the latest first. *)
Record World : Type := {
  jobIdCounter : Z;
  jobs : gmap string Z;
  checksums : list (string * string);
  fs : gmap string Node;
  trace : list Event
}.

Definition set_jobIdCounter (n : Z) (w : World) : World :=
  {| jobIdCounter := n; jobs := jobs w; checksums := checksums w;
     fs := fs w; trace := trace w |}.

Definition set_jobs (j : gmap string Z) (w : World) : World :=
  {| jobIdCounter := jobIdCounter w; jobs := j; checksums := checksums w;
     fs := fs w; trace := trace w |}.

Definition set_checksums (c : list (string * string)) (w : World) : World :=
  {| jobIdCounter := jobIdCounter w; jobs := jobs w; checksums := c;
     fs := fs w; trace := trace w |}.

Definition set_fs (f : gmap string Node) (w : World) : World :=
  {| jobIdCounter := jobIdCounter w; jobs := jobs w; checksums := checksums w;
     fs := f; trace := trace w |}.

Definition emit (e : Event) (w : World) : World :=
  {| jobIdCounter := jobIdCounter w; jobs := jobs w; checksums := checksums w;
     fs := fs w; trace := e :: trace w |}.

(** [cl.Printf]: one log line behind the logger's prefix. *)
Definition Printf (cl : customLogger) (line : string) (w : World) : World :=
  emit (EvLog (prefix cl +:+ line)) w.

(** [formFile.Close()] followed by [r.MultipartForm.RemoveAll()]: once
    before the conversion is run, and once more by the two deferred calls at
    the end of [newJob]. *)
Definition release_form (w : World) : World :=
  emit EvRemoveMultipart (emit EvCloseFormFile w).

(** [http.Error(w, message, code)]. *)
Definition http_Error (message : string) (code : Z) (w : World) : World :=
  emit (EvHttpError message code) w.

Definition StatusInternalServerError : Z := 500.

(** Modelled from the spec: [addChecksums] is not among the sources; it
    records the pair (replacement hash, original hash) by appending it to the
    store. *)
Definition addChecksums (newHash originalHash : string) (w : World) : World :=
  set_checksums (checksums w ++ [(newHash, originalHash)]) w.

(** How [client.Do] ends in [uploadUpstream]. *)
Inductive DoResult : Type :=
| DoResponse (status : Z)
| DoFailed (err : error) (respIsNil : bool) (chErr : option (option error)).

(** The outcomes of the operating-system, library and network calls of one
    job. Every field is what the named call returns on the given arguments. *)
Record Env : Type := {
  os_CreateTemp : string -> result string;
  io_Copy_upload : option error;
  os_MkdirTemp : string -> result string;
  (** [CommandTemplate.Execute] on the values built from the work directory,
      the original filename and the temporary path of the original. *)
  template_Execute : string -> string -> string -> string -> result string;
  (** [cmd.CombinedOutput]: the entries the command leaves in the result
      folder, its output, and its exit error. *)
  cmd_CombinedOutput : string -> list string * string * option error;
  os_ReadDir_err : string -> option error;
  os_Open : string -> option error;
  os_Stat : string -> result Z;
  file_Close : File -> option error;
  os_Remove : string -> option error;
  os_RemoveAll : string -> option error;
  (** Modelled from the spec: [SHA1] is not among the sources; the content
      hash of a file, which its callers expect to be able to fail. *)
  SHA1 : option File -> result string;
  http_NewRequest : option error;
  client_Do : option File -> string -> DoResult;
  relay_Copy : option error
}.

(** ** The upload session ([TaskProcessor]) *)

Section Job.

Variable env : Env.
Variable config : Config.

(** The [for] loop over [config.Tasks]: the first task listing [checkExt]. *)
Definition findTask (checkExt : string) : option Task :=
  List.find (fun t => slices_Contains (Extensions t) checkExt) (Tasks config).

Definition NewTaskProcessorFromMultipart (header : FileHeader) (w : World)
  : result TaskProcessor * World :=
  let originalExtension := path_Ext (Filename header) in
  if negb (isValidFilename originalExtension) then
    (Err ("invalid file extension: " +:+ originalExtension), w)
  else
    let checkExt := strings_ToLower (strings_TrimPrefix originalExtension ".") in
    match findTask checkExt with
    | None => (Err ("no task found for file extension ." +:+ checkExt), w)
    | Some task =>
        if Size header <? MinFilesizeBytes task then
          (Err ("file size is smaller than minimum: " +:+ Zs (Size header)
                +:+ " < " +:+ Zs (MinFilesizeBytes task)), w)
        else
          match os_CreateTemp env ("upload-*" +:+ originalExtension) with
          | Err err => (Err ("unable to create temp file: " +:+ err), w)
          | Ok name =>
              let w := set_fs (<[name := TempFile]> (fs w)) w in
              match io_Copy_upload env with
              | Some err => (Err ("unable to write temp file: " +:+ err), w)
              | None =>
                  (Ok {| tpTask := task;
                         OriginalFile := Some (OsFile name);
                         OriginalFilename := Filename header;
                         OriginalExtension := originalExtension;
                         OriginalSize := Size header;
                         tempOriginalFilePath := name;
                         ProcessedFile := None;
                         ProcessedFilename := "";
                         ProcessedExtension := "";
                         ProcessedSize := 0;
                         tempWorkDir := "";
                         logger := None |}, w)
              end
          end
    end.

Definition SetLogger (tp : TaskProcessor) (l : customLogger) : TaskProcessor :=
  {| tpTask := tpTask tp; OriginalFile := OriginalFile tp;
     OriginalFilename := OriginalFilename tp;
     OriginalExtension := OriginalExtension tp;
     OriginalSize := OriginalSize tp;
     tempOriginalFilePath := tempOriginalFilePath tp;
     ProcessedFile := ProcessedFile tp;
     ProcessedFilename := ProcessedFilename tp;
     ProcessedExtension := ProcessedExtension tp;
     ProcessedSize := ProcessedSize tp;
     tempWorkDir := tempWorkDir tp; logger := Some l |}.

Definition set_OriginalFile (f : option File) (tp : TaskProcessor)
  : TaskProcessor :=
  {| tpTask := tpTask tp; OriginalFile := f;
     OriginalFilename := OriginalFilename tp;
     OriginalExtension := OriginalExtension tp;
     OriginalSize := OriginalSize tp;
     tempOriginalFilePath := tempOriginalFilePath tp;
     ProcessedFile := ProcessedFile tp;
     ProcessedFilename := ProcessedFilename tp;
     ProcessedExtension := ProcessedExtension tp;
     ProcessedSize := ProcessedSize tp;
     tempWorkDir := tempWorkDir tp; logger := logger tp |}.

Definition set_tempOriginalFilePath (p : string) (tp : TaskProcessor)
  : TaskProcessor :=
  {| tpTask := tpTask tp; OriginalFile := OriginalFile tp;
     OriginalFilename := OriginalFilename tp;
     OriginalExtension := OriginalExtension tp;
     OriginalSize := OriginalSize tp;
     tempOriginalFilePath := p;
     ProcessedFile := ProcessedFile tp;
     ProcessedFilename := ProcessedFilename tp;
     ProcessedExtension := ProcessedExtension tp;
     ProcessedSize := ProcessedSize tp;
     tempWorkDir := tempWorkDir tp; logger := logger tp |}.

Definition set_tempWorkDir (d : string) (tp : TaskProcessor) : TaskProcessor :=
  {| tpTask := tpTask tp; OriginalFile := OriginalFile tp;
     OriginalFilename := OriginalFilename tp;
     OriginalExtension := OriginalExtension tp;
     OriginalSize := OriginalSize tp;
     tempOriginalFilePath := tempOriginalFilePath tp;
     ProcessedFile := ProcessedFile tp;
     ProcessedFilename := ProcessedFilename tp;
     ProcessedExtension := ProcessedExtension tp;
     ProcessedSize := ProcessedSize tp;
     tempWorkDir := d; logger := logger tp |}.

Definition set_ProcessedFile (f : option File) (tp : TaskProcessor)
  : TaskProcessor :=
  {| tpTask := tpTask tp; OriginalFile := OriginalFile tp;
     OriginalFilename := OriginalFilename tp;
     OriginalExtension := OriginalExtension tp;
     OriginalSize := OriginalSize tp;
     tempOriginalFilePath := tempOriginalFilePath tp;
     ProcessedFile := f;
     ProcessedFilename := ProcessedFilename tp;
     ProcessedExtension := ProcessedExtension tp;
     ProcessedSize := ProcessedSize tp;
     tempWorkDir := tempWorkDir tp; logger := logger tp |}.

(** The three assignments that end a successful [Run]. *)
Definition set_Processed (size : Z) (ext name : string) (tp : TaskProcessor)
  : TaskProcessor :=
  {| tpTask := tpTask tp; OriginalFile := OriginalFile tp;
     OriginalFilename := OriginalFilename tp;
     OriginalExtension := OriginalExtension tp;
     OriginalSize := OriginalSize tp;
     tempOriginalFilePath := tempOriginalFilePath tp;
     ProcessedFile := ProcessedFile tp;
     ProcessedFilename := name;
     ProcessedExtension := ext;
     ProcessedSize := size;
     tempWorkDir := tempWorkDir tp; logger := logger tp |}.

Definition logf (tp : TaskProcessor) (line : string) (w : World) : World :=
  match logger tp with
  | Some l => Printf l line w
  | None => w
  end.

(** The log line of a failed clean-up step, if it failed. *)
Definition log_failure (tp : TaskProcessor) (what : string)
    (err : option error) (w : World) : World :=
  match err with
  | Some e => logf tp (what +:+ e) w
  | None => w
  end.

(** [os.Remove] and [os.RemoveAll] take the path (for a directory, the whole
    tree) out of the file system when they succeed. *)
Definition remove_path (err : option error) (p : string) (w : World) : World :=
  match err with
  | Some _ => w
  | None => set_fs (delete p (fs w)) w
  end.

Definition CleanOriginalFile (tp : TaskProcessor) (w : World)
  : option error * TaskProcessor * World :=
  let '(err, tp, w) :=
    match OriginalFile tp with
    | Some f =>
        let err := file_Close env f in
        let w := log_failure tp "unable to close original file: " err w in
        (err, set_OriginalFile None tp, w)
    | None => (None, tp, w)
    end in
  if bool_decide (tempOriginalFilePath tp <> "") then
    let err := os_Remove env (tempOriginalFilePath tp) in
    let w := remove_path err (tempOriginalFilePath tp) w in
    let w := log_failure tp "unable to remove temp file: " err w in
    (err, set_tempOriginalFilePath "" tp, w)
  else (err, tp, w).

Definition CleanWorkDir (tp : TaskProcessor) (w : World)
  : option error * TaskProcessor * World :=
  if bool_decide (tempWorkDir tp = "") then (None, tp, w)
  else
    let err := os_RemoveAll env (tempWorkDir tp) in
    let w := remove_path err (tempWorkDir tp) w in
    let w := log_failure tp "unable to clean temp folder: " err w in
    (err, set_tempWorkDir "" tp, w).

Definition Close (tp : TaskProcessor) (w : World)
  : option error * TaskProcessor * World :=
  let '(_, tp, w) := CleanOriginalFile tp w in
  CleanWorkDir tp w.

(** [os.ReadDir] of a work directory: its entries, unless the call fails. *)
Definition os_ReadDir (dir : string) (w : World) : result (list string) :=
  match os_ReadDir_err env dir with
  | Some err => Err err
  | None =>
      match fs w !! dir with
      | Some (TempDir entries) => Ok entries
      | _ => Err "not a directory"
      end
  end.

(** [Run] between taking and giving back its semaphore slot. *)
Definition Run_locked (tp : TaskProcessor) (w : World)
  : outcome (option error) * TaskProcessor * World :=
  match os_MkdirTemp env "processing-*" with
  | Err err =>
      (Returned (Some ("unable to create temp folder: " +:+ err)),
       set_tempWorkDir "" tp, w)
  | Ok dir =>
      let tp := set_tempWorkDir dir tp in
      let w := set_fs (<[dir := TempDir []]> (fs w)) w in
      match template_Execute env (CommandTemplate (tpTask tp)) (tempWorkDir tp)
              (OriginalFilename tp) (tempOriginalFilePath tp) with
      | Err err =>
          (Returned (Some ("unable to generate command to be Run: " +:+ err)),
           tp, w)
      | Ok cmdLine =>
          let w := logf tp ("running task: " +:+ Name (tpTask tp) +:+ ": "
                            +:+ cmdLine) w in
          let w := emit (EvCommand cmdLine) w in
          let '(written, output, cmdErr) := cmd_CombinedOutput env cmdLine in
          let w := set_fs (<[dir := TempDir written]> (fs w)) w in
          match cmdErr with
          | Some err =>
              (Returned (Some (err +:+ " while running command:" +:+ newline
                               +:+ cmdLine +:+ newline +:+ "Output:" +:+ newline
                               +:+ output)), tp, w)
          | None =>
              match os_ReadDir (tempWorkDir tp) w with
              | Err err =>
                  (Returned (Some ("unable to read temp directory: " +:+ err)),
                   tp, w)
              | Ok files =>
                  if negb (length files =? 1)%nat then
                    (Returned
                       (Some ("unexpected number of files in temp directory: "
                              +:+ Zs (Z.of_nat (length files)))), tp, w)
                  else
                    match files with
                    | [] => (Panicked, tp, w)
                    | file0 :: _ =>
                        let processedFilePath :=
                          path_Join (tempWorkDir tp) file0 in
                        match os_Open env processedFilePath with
                        | Some err =>
                            (Returned
                               (Some ("unable to open temp file: " +:+ err)),
                             set_ProcessedFile None tp, w)
                        | None =>
                            let tp :=
                              set_ProcessedFile
                                (Some (OsFile processedFilePath)) tp in
                            match os_Stat env processedFilePath with
                            | Err _ =>
                                (* [stat] is nil and [stat.Size()] panics *)
                                (Panicked, tp, w)
                            | Ok size =>
                                let ext := path_Ext processedFilePath in
                                let name :=
                                  strings_TrimSuffix (OriginalFilename tp)
                                    (OriginalExtension tp) +:+ ext in
                                (Returned None,
                                 set_Processed size ext name tp, w)
                            end
                        end
                    end
              end
          end
      end
  end.

(** [Run]: one slot of the image or of the video semaphore is held around
    the conversion and given back by a deferred call on every way out.
    Waiting for a free slot is a matter of scheduling and is not part of
    this sequential account. *)
Definition Run (tp : TaskProcessor) (w : World)
  : outcome (option error) * TaskProcessor * World :=
  let pool :=
    if slices_Contains imageExtensions
         (strings_ToLower (strings_TrimPrefix (OriginalExtension tp) "."))
    then ImagePool else VideoPool in
  let w := emit (EvAcquire pool) w in
  let '(res, tp, w) := Run_locked tp w in
  (res, tp, emit (EvRelease pool) w).

(** ** The job coordinator ([newJob], [uploadUpstream]) *)

(** [uploadUpstream(w, r, file, name)]: the multipart body is streamed to the
    upstream server and its response relayed to the client. [client.Do] is
    followed by [defer resp.Body.Close()], which dereferences [resp] at once:
    when [Do] fails with a nil response the call panics. *)
Definition uploadUpstream (file : option File) (name : string) (w : World)
  : outcome (option error) * World :=
  let w := emit (EvUploadUpstream file name) w in
  match http_NewRequest env with
  | Some err => (Returned (Some ("unable to create POST request: " +:+ err)), w)
  | None =>
      match client_Do env file name with
      | DoFailed err true _ => (Panicked, w)
      | DoFailed err false (Some chErr) =>
          (Returned (Some ("error writing data to pipe: " +:+ err +:+ ": "
                           +:+ default "<nil>" chErr)), w)
      | DoFailed err false None =>
          (Returned (Some ("unable to POST: " +:+ err)), w)
      | DoResponse status =>
          let w := emit (EvRelay status) w in
          match relay_Copy env with
          | Some err =>
              (Returned
                 (Some ("unable to forward response to client: " +:+ err)), w)
          | None => (Returned None, w)
          end
      end
  end.

Definition duplicate_message : string :=
  "IUO is already processing this file. The app is re-uploading it because it's taking too long. No workaround is possible, just kill the app and wait".

Definition jobKeyOf (header : FileHeader) : string :=
  String.String (ascii_of_nat 34) (Filename header)
  +:+ String.String (ascii_of_nat 34) " ("
  +:+ humanReadableSize (Size header) +:+ ")".

(** [newJob] from the call of [uploadUpstream] to its end: the chosen file
    is forwarded and, for a processed file, the pair of hashes is recorded. *)
Definition newJob_forward (jobLogger : customLogger) (header : FileHeader)
    (taskProcessor : option TaskProcessor) (uploadFile : option File)
    (uploadFilename : string) (uploadOriginal : bool) (originalHash : string)
    (w : World) : outcome (option error) * World :=
  match uploadUpstream uploadFile uploadFilename w with
  | (Panicked, w) => (Panicked, w)
  | (Returned err, w) =>
      let w :=
        match err with
        | Some e =>
            let w := Printf jobLogger ("upload upstream error: " +:+ e) w in
            http_Error "failed to process file, view IUO logs for more info"
              StatusInternalServerError w
        | None => w
        end in
      if uploadOriginal then
        (Returned None,
         Printf jobLogger ("uploaded original: " +:+ jobKeyOf header) w)
      else
        match taskProcessor with
        | None => (Panicked, w)
        | Some tp =>
            match SHA1 env (ProcessedFile tp) with
            | Err e => (Returned (Some ("new sha1: " +:+ e)), w)
            | Ok newHash =>
                let w := addChecksums newHash originalHash w in
                (Returned None,
                 Printf jobLogger
                   ("uploaded: "
                    +:+ jobKeyOf {| Filename := ProcessedFilename tp;
                                    Size := ProcessedSize tp |}
                    +:+ " <- (" +:+ humanReadableSize (OriginalSize tp) +:+ ") "
                    +:+ String.String (ascii_of_nat 34) (OriginalFilename tp)
                    +:+ String.String (ascii_of_nat 34) "") w)
            end
        end
  end.

(** [newJob] inside [if err == nil && taskProcessor != nil], up to the
    choice between the original and the processed file, then on to the
    forwarding. The session travels along for the deferred [Close]. *)
Definition newJob_process (jobLogger : customLogger) (jobID : Z)
    (header : FileHeader) (tp : TaskProcessor) (w : World)
  : outcome (option error) * TaskProcessor * World :=
  let tp := SetLogger tp jobLogger in
  let w := release_form w in
  match Run tp w with
  | (Panicked, tp, w) => (Panicked, tp, w)
  | (Returned (Some err), tp, w) =>
      (Returned (Some ("failed to process file in job " +:+ Zs jobID +:+ ": "
                       +:+ err)), tp, w)
  | (Returned None, tp, w) =>
      if OriginalSize tp <=? ProcessedSize tp then
        let uploadFile := OriginalFile tp in
        let '(_, tp, w) := CleanWorkDir tp w in
        let '(res, w) :=
          newJob_forward jobLogger header (Some tp) uploadFile
            (Filename header) true "" w in
        (res, tp, w)
      else
        let uploadFile := ProcessedFile tp in
        let uploadFilename := ProcessedFilename tp in
        match SHA1 env (OriginalFile tp) with
        | Err e => (Returned (Some ("sha1: " +:+ e)), tp, w)
        | Ok originalHash =>
            let '(_, tp, w) := CleanOriginalFile tp w in
            let '(res, w) :=
              newJob_forward jobLogger header (Some tp) uploadFile
                uploadFilename false originalHash w in
            (res, tp, w)
        end
  end.

(** [newJob] once the key is registered: the session is created, or the
    upload passes through; a created session is closed by a deferred call
    however the job ends. *)
Definition newJob_registered (jobLogger : customLogger) (jobID : Z)
    (header : FileHeader) (w : World) : outcome (option error) * World :=
  match NewTaskProcessorFromMultipart header w with
  | (Err _, w) =>
      newJob_forward jobLogger header None (Some MultipartFile)
        (Filename header) true "" w
  | (Ok taskProcessor, w) =>
      let '(res, tp, w) := newJob_process jobLogger jobID header taskProcessor w in
      let '(_, _, w) := Close tp w in
      (res, w)
  end.

(** [newJob] after the form file was read: the duplicate check on the job
    table, the registration, and the deferred [jobs.Delete]. *)
Definition newJob_dedup (jobLogger : customLogger) (jobID : Z)
    (header : FileHeader) (w : World) : outcome (option error) * World :=
  let jobKey := jobKeyOf header in
  let w := Printf jobLogger ("download original: " +:+ jobKey) w in
  match jobs w !! jobKey with
  | Some id =>
      let w := http_Error duplicate_message StatusInternalServerError w in
      (Returned (Some ("a job processing this file already exists with ID: "
                       +:+ Zs id)), w)
  | None =>
      let w := set_jobs (<[jobKey := jobID]> (jobs w)) w in
      let '(res, w) := newJob_registered jobLogger jobID header w in
      (res, set_jobs (delete jobKey (jobs w)) w)
  end.

Definition newJob (r : Request) (logger : customLogger) (w : World)
  : outcome (option error) * World :=
  let jobID := jobIdCounter w + 1 in
  let w := set_jobIdCounter jobID w in
  let jobLogger := newCustomLogger logger ("job " +:+ Zs jobID +:+ ": ") in
  match FormFile r with
  | Err err =>
      (Returned (Some ("unable to read file in key " +:+ filterFormKey
                       +:+ " from uploaded form data: " +:+ err)), w)
  | Ok formFileHeader =>
      let '(res, w) := newJob_dedup jobLogger jobID formFileHeader w in
      (res, release_form w)
  end.

End Job.

(** ** Reading a trace *)

(** The calls of [uploadUpstream], the latest first: file and name. *)
Definition uploads (t : list Event) : list (option File * string) :=
  omap (fun e => match e with
                 | EvUploadUpstream f n => Some (f, n)
                 | _ => None
                 end) t.

(** The external commands run, the latest first. *)
Definition commands (t : list Event) : list string :=
  omap (fun e => match e with EvCommand c => Some c | _ => None end) t.

(** The semaphore slots taken, the latest first: one per call of [Run]. *)
Definition acquired (t : list Event) : list Pool :=
  omap (fun e => match e with EvAcquire p => Some p | _ => None end) t.

(** The error responses written with [http.Error], the latest first. *)
Definition http_errors (t : list Event) : list (string * Z) :=
  omap (fun e => match e with EvHttpError m c => Some (m, c) | _ => None end) t.

(** The logger and the identifier [newJob] gives to the job it starts. *)
Definition jobIDOf (w : World) : Z := jobIdCounter w + 1.

Definition jobLoggerOf (logger : customLogger) (w : World) : customLogger :=
  newCustomLogger logger ("job " +:+ Zs (jobIDOf w) +:+ ": ").

(** The state in which a job that passed the duplicate check goes on: its
    key is in the job table under its identifier. *)
Definition registered (logger : customLogger) (header : FileHeader)
    (w : World) : World :=
  let w' := Printf (jobLoggerOf logger w)
              ("download original: " +:+ jobKeyOf header)
              (set_jobIdCounter (jobIDOf w) w) in
  set_jobs (<[jobKeyOf header := jobIDOf w]> (jobs w')) w'.

Definition World0 : World :=
  {| jobIdCounter := 0; jobs := ∅; checksums := []; fs := ∅; trace := [] |}.

(** How a call of [uploadUpstream] ends; the state it starts from has no
    part in it. *)
Definition upstream_result (env : Env) (file : option File) (name : string)
  : outcome (option error) :=
  fst (uploadUpstream env file name World0).

(** ** Two requests at once: the job table under interleaving *)

(** Where a request stands in [newJob] with respect to the job table. Each
    [sync.Map] call is atomic; between two calls of one request any call of
    another request may run. *)
Inductive Pc : Type :=
| AtLoad
| AtStore
| InFlight
| Rejected (id : Z)
| Finished.

Record Thread : Type := {
  th_header : FileHeader;
  th_id : Z;
  th_pc : Pc
}.

Definition set_pc (pc : Pc) (t : Thread) : Thread :=
  {| th_header := th_header t; th_id := th_id t; th_pc := pc |}.

(** One step of one request: [jobs.Load] with the rejection it may lead
    to, then [jobs.Store], then the job itself up to the deferred
    [jobs.Delete]. *)
Definition thread_step (table : gmap string Z) (t : Thread)
  : gmap string Z * Thread :=
  let jobKey := jobKeyOf (th_header t) in
  match th_pc t with
  | AtLoad =>
      match table !! jobKey with
      | Some id => (table, set_pc (Rejected id) t)
      | None => (table, set_pc AtStore t)
      end
  | AtStore => (<[jobKey := th_id t]> table, set_pc InFlight t)
  | InFlight => (delete jobKey table, set_pc Finished t)
  | Rejected _ | Finished => (table, t)
  end.

Record Shared : Type := {
  sh_jobs : gmap string Z;
  sh_threads : list Thread
}.

(** The scheduler lets request [i] take its next step. *)
Definition sched_step (s : Shared) (i : nat) : Shared :=
  match sh_threads s !! i with
  | None => s
  | Some t =>
      let '(table, t') := thread_step (sh_jobs s) t in
      {| sh_jobs := table; sh_threads := <[i := t']> (sh_threads s) |}
  end.

Definition run_schedule (s : Shared) (schedule : list nat) : Shared :=
  foldl sched_step s schedule.

(** Two requests arrive, with the identifiers [1] and [2]. *)
Definition two_requests (h1 h2 : FileHeader) : Shared :=
  {| sh_jobs := ∅;
     sh_threads := [ {| th_header := h1; th_id := 1; th_pc := AtLoad |};
                     {| th_header := h2; th_id := 2; th_pc := AtLoad |} ] |}.

Definition pcs (s : Shared) : list Pc := map th_pc (sh_threads s).

(** [w'] differs from [w] only in log lines, in releases of the form file
    and in the temporary file system. *)
Definition housekeeping (w w' : World) : Prop :=
  jobIdCounter w' = jobIdCounter w /\ jobs w' = jobs w
  /\ checksums w' = checksums w
  /\ uploads (trace w') = uploads (trace w)
  /\ commands (trace w') = commands (trace w)
  /\ acquired (trace w') = acquired (trace w)
  /\ http_errors (trace w') = http_errors (trace w).

(** [w'] differs from [w] in nothing a client, the upstream server, the job
    table or the checksum store can see. *)
Definition unseen (w w' : World) : Prop :=
  jobIdCounter w' = jobIdCounter w /\ jobs w' = jobs w
  /\ checksums w' = checksums w
  /\ uploads (trace w') = uploads (trace w)
  /\ http_errors (trace w') = http_errors (trace w).

(** ** Sample configuration, uploads and environments *)

Definition image_task : Task :=
  {| Name := "avif"; Extensions := ["jpg"; "jpeg"; "png"; "heic"];
     MinFilesizeBytes := 0;
     CommandTemplate := "avifenc {{.folder}}/{{.name}}.{{.extension}} {{.result_folder}}/{{.name}}.avif" |}.

Definition video_task : Task :=
  {| Name := "hevc"; Extensions := ["mov"; "mp4"];
     MinFilesizeBytes := 1000000;
     CommandTemplate := "ffmpeg -i {{.folder}}/{{.name}}.{{.extension}} {{.result_folder}}/{{.name}}.mp4" |}.

Definition sample_config : Config := {| Tasks := [image_task; video_task] |}.

Definition photo : FileHeader := {| Filename := "photo.jpg"; Size := 2000000 |}.
Definition clip : FileHeader := {| Filename := "clip.mov"; Size := 50000 |}.
Definition heic : FileHeader := {| Filename := "img.heic"; Size := 500000 |}.

Definition request_of (header : FileHeader) : Request :=
  {| FormFile := Ok header |}.

Definition sample_logger : customLogger := {| prefix := "10.0.0.7: " |}.

Definition sample_SHA1 (hashOriginal hashProcessed : result string)
    (f : option File) : result string :=
  match f with
  | Some (OsFile p) =>
      if bool_decide (p = "/tmp/upload-1.jpg") then hashOriginal
      else hashProcessed
  | _ => Err "invalid argument"
  end.

(** An environment in which the converter leaves [written] in the result
    folder and every call succeeds, but for the outcomes given. *)
Definition sample_env (copyErr : option error) (written : list string)
    (openErr : option error) (statSize : Z)
    (hashOriginal hashProcessed : result string)
    (do : DoResult) (relayErr : option error) : Env :=
  {| os_CreateTemp := fun _ => Ok "/tmp/upload-1.jpg";
     io_Copy_upload := copyErr;
     os_MkdirTemp := fun _ => Ok "/tmp/processing-1";
     template_Execute := fun _ dir _ original =>
       Ok ("avifenc " +:+ original +:+ " " +:+ dir +:+ "/upload-1.avif");
     cmd_CombinedOutput := fun _ => (written, "", None);
     os_ReadDir_err := fun _ => None;
     os_Open := fun _ => openErr;
     os_Stat := fun _ => Ok statSize;
     file_Close := fun _ => None;
     os_Remove := fun _ => None;
     os_RemoveAll := fun _ => None;
     SHA1 := sample_SHA1 hashOriginal hashProcessed;
     http_NewRequest := None;
     client_Do := fun _ _ => do;
     relay_Copy := relayErr |}.

Definition hashA : string := "2jmj7l5rSw0yVb/vlWAYkK/YBwk=".
Definition hashB : string := "qUqP5cyxm6YcTAhz05Hph5gvu9M=".

(** Everything works and the converter shrinks the photo. *)
Definition env_fine : Env :=
  sample_env None ["upload-1.avif"] None 400000 (Ok hashA) (Ok hashB)
    (DoResponse 201) None.

(** The converter leaves nothing in the result folder. *)
Definition env_no_output : Env :=
  sample_env None [] None 400000 (Ok hashA) (Ok hashB) (DoResponse 201) None.

(** The only file in the result folder cannot be opened. *)
Definition env_unopenable : Env :=
  sample_env None ["upload-1.avif"] (Some "permission denied") 400000
    (Ok hashA) (Ok hashB) (DoResponse 201) None.

(** The original cannot be read back for hashing. *)
Definition env_unhashable : Env :=
  sample_env None ["upload-1.avif"] None 400000
    (Err "read /tmp/upload-1.jpg: input/output error") (Ok hashB)
    (DoResponse 201) None.

(** The client goes away while the upstream response is relayed. *)
Definition env_relay_fails : Env :=
  sample_env None ["upload-1.avif"] None 400000 (Ok hashA) (Ok hashB)
    (DoResponse 201) (Some "write: broken pipe").

(** The same, and the processed file cannot be read back for hashing. *)
Definition env_relay_fails_unhashed : Env :=
  sample_env None ["upload-1.avif"] None 400000 (Ok hashA)
    (Err "read /tmp/processing-1/upload-1.avif: input/output error")
    (DoResponse 201) (Some "write: broken pipe").

(** The temporary file is created and the copy into it fails. *)
Definition env_copy_fails : Env :=
  sample_env (Some "write /tmp/upload-1.jpg: no space left on device")
    ["upload-1.avif"] None 400000 (Ok hashA) (Ok hashB) (DoResponse 201) None.

(** The converter grows the photo. *)
Definition env_grows : Env :=
  sample_env None ["upload-1.avif"] None 2500000 (Ok hashA) (Ok hashB)
    (DoResponse 201) None.

(** A state in which job 7 is converting [img.heic]. *)
Definition World_busy : World :=
  {| jobIdCounter := 7; jobs := {[ jobKeyOf heic := 7 ]}; checksums := [];
     fs := ∅; trace := [] |}.

(** Every temporary path of [w] that was not already in [w0] is one the
    session [tp] still has on record. *)
Definition confined (w0 w : World) (tp : TaskProcessor) : Prop :=
  forall p n,
    fs w !! p = Some n ->
    fs w0 !! p = Some n
    \/ (p <> "" /\ (p = tempOriginalFilePath tp \/ p = tempWorkDir tp)).

(** The calls that create and remove temporary paths behave: a created
    path has a name, and a removal succeeds. *)
Definition tidy (env : Env) : Prop :=
  (forall pattern p, os_CreateTemp env pattern = Ok p -> p <> "")
  /\ (forall pattern p, os_MkdirTemp env pattern = Ok p -> p <> "")
  /\ (forall p, os_Remove env p = None)
  /\ (forall p, os_RemoveAll env p = None).

(** ** Reference substitution *)

(** What the rewriter is meant to do to a body, written as one pass from
    left to right: at a position where [old] starts, the bytes of [new] are
    written over the body (they are [pending] until written), and the search
    goes on behind them. *)
Fixpoint substitute (s old new pending : list byte) : list byte :=
  match s with
  | [] => []
  | b :: s' =>
      match pending with
      | c :: pending' => c :: substitute s' old new pending'
      | [] =>
          if bytes_HasPrefix s old then
            match new with
            | c :: new' => c :: substitute s' old new new'
            | [] => b :: substitute s' old new []
            end
          else b :: substitute s' old new []
      end
  end.

(** ** More to read from a trace *)

(** What was written to the client, the latest first: error responses and
    relayed upstream responses. *)
Definition responses (t : list Event) : list Event :=
  omap (fun e => match e with
                 | EvHttpError _ _ | EvRelay _ => Some e
                 | _ => None
                 end) t.

(** The semaphore traffic, the latest first. *)
Definition slots (t : list Event) : list Event :=
  omap (fun e => match e with
                 | EvAcquire _ | EvRelease _ => Some e
                 | _ => None
                 end) t.

(** The semaphore [Run] uses for a session. *)
Definition poolOf (tp : TaskProcessor) : Pool :=
  if slices_Contains imageExtensions
       (strings_ToLower (strings_TrimPrefix (OriginalExtension tp) "."))
  then ImagePool else VideoPool.

(** The size of the only file in the result folder cannot be read. *)
Definition env_unstatable : Env :=
  {| os_CreateTemp := os_CreateTemp env_fine;
     io_Copy_upload := io_Copy_upload env_fine;
     os_MkdirTemp := os_MkdirTemp env_fine;
     template_Execute := template_Execute env_fine;
     cmd_CombinedOutput := cmd_CombinedOutput env_fine;
     os_ReadDir_err := os_ReadDir_err env_fine;
     os_Open := os_Open env_fine;
     os_Stat := fun _ => Err "stat: no such file or directory";
     file_Close := file_Close env_fine;
     os_Remove := os_Remove env_fine;
     os_RemoveAll := os_RemoveAll env_fine;
     SHA1 := SHA1 env_fine;
     http_NewRequest := http_NewRequest env_fine;
     client_Do := client_Do env_fine;
     relay_Copy := relay_Copy env_fine |}.

(** The upstream server cannot be reached. *)
Definition env_unreachable : Env :=
  sample_env None ["upload-1.avif"] None 400000 (Ok hashA) (Ok hashB)
    (DoFailed "dial tcp: connection refused" true None) None.

(** The temporary file cannot be created. *)
Definition env_no_temp : Env :=
  {| os_CreateTemp := fun _ => Err "open /tmp/upload-1.jpg: read-only file system";
     io_Copy_upload := io_Copy_upload env_fine;
     os_MkdirTemp := os_MkdirTemp env_fine;
     template_Execute := template_Execute env_fine;
     cmd_CombinedOutput := cmd_CombinedOutput env_fine;
     os_ReadDir_err := os_ReadDir_err env_fine;
     os_Open := os_Open env_fine;
     os_Stat := os_Stat env_fine;
     file_Close := file_Close env_fine;
     os_Remove := os_Remove env_fine;
     os_RemoveAll := os_RemoveAll env_fine;
     SHA1 := SHA1 env_fine;
     http_NewRequest := http_NewRequest env_fine;
     client_Do := client_Do env_fine;
     relay_Copy := relay_Copy env_fine |}.

(** The session [NewTaskProcessorFromMultipart] hands out for the photo,
    with the logger of its job. *)
Definition sample_session : TaskProcessor :=
  {| tpTask := image_task;
     OriginalFile := Some (OsFile "/tmp/upload-1.jpg");
     OriginalFilename := "photo.jpg";
     OriginalExtension := ".jpg";
     OriginalSize := 2000000;
     tempOriginalFilePath := "/tmp/upload-1.jpg";
     ProcessedFile := None;
     ProcessedFilename := "";
     ProcessedExtension := "";
     ProcessedSize := 0;
     tempWorkDir := "";
     logger := Some (jobLoggerOf sample_logger World0) |}.

(** An upload without an extension. *)
Definition readme : FileHeader := {| Filename := "README"; Size := 1200 |}.

(** ** Headers ([helpers.go], [setHeaders], [webSocketSafeHeader]) *)

(** [http.Header]: the values of each key. *)
Abbreviation Header := (gmap string (list string)).

(** A byte allowed in a header field name (an RFC 7230 token byte). *)
Definition validHeaderFieldByte (c : ascii) : bool :=
  let n := N_of_ascii c in
  ((97 <=? n) && (n <=? 122) || (65 <=? n) && (n <=? 90)
   || (48 <=? n) && (n <=? 57)
   || (n =? 33) || (n =? 35) || (n =? 36) || (n =? 37) || (n =? 38)
   || (n =? 39) || (n =? 42) || (n =? 43) || (n =? 45) || (n =? 46)
   || (n =? 94) || (n =? 95) || (n =? 96) || (n =? 124) || (n =? 126))%N.

Definition upper_char (c : ascii) : ascii :=
  let n := N_of_ascii c in
  if ((97 <=? n) && (n <=? 122))%N then ascii_of_N (n - 32) else c.

(** The letter pass of the canonical form: upper case at the start and
    after a hyphen, lower case elsewhere. *)
Fixpoint canonical_letters (upper : bool) (cs : list ascii) : list ascii :=
  match cs with
  | [] => []
  | c :: cs' =>
      let c' := if upper then upper_char c else lower_char c in
      c' :: canonical_letters (bool_decide (c' = "-"%char)) cs'
  end.

(** [textproto.CanonicalMIMEHeaderKey]: a key with a byte that is not a
    token byte is returned as it is. *)
Definition CanonicalMIMEHeaderKey (s : string) : string :=
  if forallb validHeaderFieldByte (chars s)
  then of_chars (canonical_letters true (chars s))
  else s.

(** [h.Del(key)]. *)
Definition Header_Del (key : string) (h : Header) : Header :=
  delete (CanonicalMIMEHeaderKey key) h.

(** The loop [for key := range h { h.Del(key) }], over the keys the map
    has when the loop starts. *)
Definition deleteAllHeaders (h : Header) : Header :=
  foldr Header_Del h (map fst (map_to_list h)).

(** The loop [for key, values := range h2 { h1[key] = values }]. *)
Definition copyHeaders (h1 h2 : Header) : Header :=
  foldr (fun kv acc => <[kv.1 := kv.2]> acc) h1 (map_to_list h2).

Definition setHeaders (h1 h2 : Header) : Header :=
  copyHeaders (deleteAllHeaders h1) h2.

Definition webSocketHeaders : list string :=
  ["Upgrade"; "Connection"; "Sec-Websocket-Key"; "Sec-Websocket-Version";
   "Sec-Websocket-Extensions"; "Sec-Websocket-Protocol"].

(** [webSocketSafeHeader]: works on a clone, so the header given is not
    touched. *)
Definition webSocketSafeHeader (header : Header) : Header :=
  foldl (fun h v => Header_Del v h) header webSocketHeaders.

Definition sample_header : Header :=
  {[ "Upgrade" := ["websocket"]; "Connection" := ["Upgrade"];
     "Sec-Websocket-Key" := ["dGhlIHNhbXBsZSBub25jZQ=="];
     "Cookie" := ["immich_access_token=abc"] ]}.

(** ** Request classification ([helpers.go]) and dispatch ([handleRequest]) *)

(** What the classifiers read of a request: [r.Method], [r.URL.Path],
    [r.URL.String()], and the [Upgrade] and [Content-Type] headers. *)
Record HttpRequest : Type := {
  Method : string;
  URL_Path : string;
  URL_String : string;
  Upgrade : string;
  ContentType : string
}.

(** The character class [[a-z0-9]]. *)
Definition lower_alnum (c : ascii) : bool :=
  let n := N_of_ascii c in
  ((97 <=? n) && (n <=? 122) || (48 <=? n) && (n <=? 57))%N.

(** A regular expression that is a sequence of one-byte classes. *)
Definition literal (s : string) : list (ascii -> bool) :=
  map (fun c x => bool_decide (x = c)) (chars s).

Definition uuid_pattern : list (ascii -> bool) :=
  replicate 8 lower_alnum ++ literal "-" ++ replicate 4 lower_alnum
  ++ literal "-" ++ replicate 4 lower_alnum ++ literal "-"
  ++ replicate 4 lower_alnum ++ literal "-" ++ replicate 12 lower_alnum.

(** [re.MatchString] for such an expression between [^] and [$]. *)
Fixpoint match_classes (pattern : list (ascii -> bool)) (cs : list ascii)
  : bool :=
  match pattern, cs with
  | [], [] => true
  | p :: pattern', c :: cs' => p c && match_classes pattern' cs'
  | _, _ => false
  end.

Definition isAssetsUpload (r : HttpRequest) : bool :=
  bool_decide (Method r = "POST") && bool_decide (URL_Path r = "/api/assets")
  && strings_HasPrefix (ContentType r) "multipart/form-data".

Definition isStreamSync (r : HttpRequest) : bool :=
  bool_decide (Method r = "POST")
  && bool_decide (URL_Path r = "/api/sync/stream").

Definition isFullSync (r : HttpRequest) : bool :=
  bool_decide (Method r = "POST")
  && bool_decide (URL_Path r = "/api/sync/full-sync").

Definition isDeltaSync (r : HttpRequest) : bool :=
  bool_decide (Method r = "POST")
  && bool_decide (URL_Path r = "/api/sync/delta-sync").

Definition isAlbum (r : HttpRequest) : bool :=
  bool_decide (Method r = "GET")
  && match_classes (literal "/api/albums/" ++ uuid_pattern)
       (chars (URL_Path r)).

Definition isBucket (r : HttpRequest) : bool :=
  bool_decide (Method r = "GET")
  && strings_HasPrefix (URL_Path r) "/api/timeline/bucket".

Definition isAssetView (r : HttpRequest) : bool :=
  bool_decide (Method r = "GET")
  && match_classes (literal "/api/assets/" ++ uuid_pattern)
       (chars (URL_Path r)).

(** [re.FindStringSubmatch]: nothing without a match, else the match and
    its one group, the identifier between the two literal parts. *)
Definition originalDownload_matches (url : string) : list string :=
  if match_classes
       (literal "/api/assets/" ++ uuid_pattern ++ literal "/original")
       (chars url)
  then [url; of_chars (take 36 (drop 12 (chars url)))]
  else [].

Definition isOriginalDownloadPath (r : HttpRequest) : bool * list string :=
  let matches := originalDownload_matches (URL_String r) in
  (bool_decide (Method r = "GET") && (length matches =? 2)%nat, matches).



(** The seven classifiers of a request, in the order of [helpers.go]. *)
Definition classifiers (r : HttpRequest) : list bool :=
  [isAssetsUpload r; isStreamSync r; isFullSync r; isDeltaSync r; isAlbum r;
   isBucket r; isAssetView r].


Definition download_request : HttpRequest :=
  {| Method := "GET";
     URL_Path := "/api/assets/0a1b2c3d-0000-4abc-9def-0123456789ab/original";
     URL_String := "/api/assets/0a1b2c3d-0000-4abc-9def-0123456789ab/original";
     Upgrade := ""; ContentType := "" |}.

(** * Sample evaluations *)

Example ext_demo :
  path_Ext "photo.tar.JPG" = ".JPG" /\ path_Ext "a.b/c" = ""
  /\ path_Ext "/tmp/processing-1/out.avif" = ".avif"
  /\ strings_TrimSuffix "photo.JPG" ".JPG" +:+ ".avif" = "photo.avif"
  /\ strings_ToLower (strings_TrimPrefix ".JPG" ".") = "jpg"
  /\ isValidFilename ".JPG" = true /\ isValidFilename "" = false
  /\ isValidFilename ".j pg" = false.
Proof. vm_compute. repeat split. Qed.

Example humanReadableSize_demo :
  humanReadableSize 500000 = "488.28 KB" /\ humanReadableSize 50000 = "48.83 KB"
  /\ humanReadableSize 2000000 = "1.91 MB" /\ humanReadableSize 999 = "999 bytes"
  /\ humanReadableSize 1152 = "1.12 KB" /\ humanReadableSize 1024 = "1.00 KB".
Proof. vm_compute. repeat split. Qed.

Example replace_demo :
  replaceAllBytes 10 [Byte.x61; Byte.x62; Byte.x63; Byte.x61; Byte.x62]
    [Byte.x61; Byte.x62] [Byte.x7a; Byte.x79]
  = Some [Byte.x7a; Byte.x79; Byte.x63; Byte.x7a; Byte.x79].
Proof. vm_compute. reflexivity. Qed.

Example replace_shorter_demo :
  replaceAllBytes 10 [Byte.x61; Byte.x62; Byte.x63; Byte.x61; Byte.x62]
    [Byte.x61; Byte.x62] [Byte.x7a]
  = Some [Byte.x7a; Byte.x62; Byte.x63; Byte.x7a; Byte.x62].
Proof. vm_compute. reflexivity. Qed.

(** * Properties *)

(** ** [replaceAllBytes] *)

Section ReplaceAllBytes.

Implicit Types s old new sep : list byte.

Lemma bytes_HasPrefix_true s sep :
  bytes_HasPrefix s sep = true <-> exists post, s = sep ++ post.
Proof.
  unfold bytes_HasPrefix. rewrite bool_decide_eq_true. split.
  - intros H. exists (drop (length sep) s).
    rewrite <- H at 1. symmetry. apply take_drop.
  - intros [post ->]. by rewrite take_app_length.
Qed.

Lemma occurs_here old post : occurs old (old ++ post).
Proof. by exists [], post. Qed.

Lemma occurs_cons old a s : occurs old s -> occurs old (a :: s).
Proof. intros (pre & post & ->). by exists (a :: pre), post. Qed.

Lemma occurs_tail old a s :
  occurs old (a :: s) -> bytes_HasPrefix (a :: s) old = false -> occurs old s.
Proof.
  intros (pre & post & E) Hp. destruct pre as [|b pre].
  - simpl in E. assert (bytes_HasPrefix (a :: s) old = true) as Ht.
    { apply bytes_HasPrefix_true. by exists post. }
    congruence.
  - injection E as _ ->. by exists pre, post.
Qed.

Lemma occurs_nil old : occurs old [] -> bytes_HasPrefix [] old = true.
Proof.
  intros (pre & post & E). apply bytes_HasPrefix_true.
  destruct pre; [|done]. by exists post.
Qed.

(** What [bytes.Index] answers: [-1] when [sep] does not occur, and
    otherwise an index within [s] at which [sep] starts. *)
Lemma bytes_Index_spec s sep :
  (bytes_Index s sep = -1 /\ ~ occurs sep s)
  \/ (0 <= bytes_Index s sep
      /\ exists post, slice_from s (bytes_Index s sep) = sep ++ post).
Proof.
  unfold slice_from. induction s as [|a s IH]; simpl.
  - destruct (bytes_HasPrefix [] sep) eqn:Hp.
    + right. split; [lia|]. by apply bytes_HasPrefix_true.
    + left. split; [done|]. intros Ho. apply occurs_nil in Ho. congruence.
  - destruct (bytes_HasPrefix (a :: s) sep) eqn:Hp.
    + right. split; [lia|]. by apply bytes_HasPrefix_true.
    + destruct IH as [[Hi Hno]|[Hi [post Hpost]]].
      * left. rewrite Hi. simpl. split; [done|].
        intros Ho. apply Hno. by eapply occurs_tail.
      * right. destruct (bytes_Index s sep =? -1) eqn:Hm; [lia|].
        split; [lia|]. exists post.
        replace (Z.to_nat (bytes_Index s sep + 1))
          with (S (Z.to_nat (bytes_Index s sep))) by lia.
        done.
Qed.

Lemma bytes_Index_absent s sep :
  ~ occurs sep s -> bytes_Index s sep = -1.
Proof.
  intros Hno. destruct (bytes_Index_spec s sep) as [[H _]|[_ [post H]]]; [done|].
  exfalso. apply Hno. unfold slice_from in H.
  exists (take (Z.to_nat (bytes_Index s sep)) s), post.
  rewrite <- H. symmetry. apply take_drop.
Qed.

Lemma bytes_Index_present s sep :
  occurs sep s -> 0 <= bytes_Index s sep.
Proof.
  intros Ho. destruct (bytes_Index_spec s sep) as [[_ H]|[H _]]; done.
Qed.

Lemma bytes_Index_prefix sep post : bytes_Index (sep ++ post) sep = 0.
Proof.
  assert (bytes_HasPrefix (sep ++ post) sep = true) as H.
  { apply bytes_HasPrefix_true. by exists post. }
  destruct (sep ++ post); simpl; by rewrite H.
Qed.

Lemma length_copy dst src : length (copy dst src) = length dst.
Proof. unfold copy. rewrite length_app, length_take, length_drop. lia. Qed.

Lemma length_copy_at s offset src :
  0 <= offset <= Z.of_nat (length s) ->
  length (copy_at s offset src) = length s.
Proof.
  intros H. unfold copy_at, slice_from.
  rewrite length_app, length_copy, length_take, length_drop. lia.
Qed.

Lemma copy_at_nil s offset : copy_at s offset [] = s.
Proof.
  unfold copy_at, copy, slice_from. rewrite take_nil. simpl.
  rewrite drop_0. apply take_drop.
Qed.

(** The loop ends, and keeps the length, when every round moves the offset
    forward. *)
Lemma replaceAllBytes_loop_returns fuel : forall s old new offset,
  new <> [] -> (length new <= length old)%nat ->
  0 <= offset <= Z.of_nat (length s) ->
  (length s - Z.to_nat offset < fuel)%nat ->
  exists out, replaceAllBytes_loop fuel s old new offset = Some out
              /\ length out = length s.
Proof.
  induction fuel as [|fuel IH]; intros s old new offset Hne Hlen Hoff Hfuel;
    [lia|].
  simpl. destruct (bytes_Index_spec (slice_from s offset) old)
    as [[Hi _]|[Hi [post Hpost]]].
  - rewrite Hi. simpl. by exists s.
  - destruct (bytes_Index (slice_from s offset) old =? -1) eqn:Hm; [lia|].
    set (i := bytes_Index (slice_from s offset) old) in *.
    assert (Z.of_nat (length new) > 0) as Hpos.
    { destruct new; [done|]. simpl. lia. }
    assert (i + Z.of_nat (length old) <= Z.of_nat (length s) - offset) as Hfit.
    { apply (f_equal length) in Hpost. unfold slice_from in Hpost.
      rewrite !length_drop, length_app in Hpost. lia. }
    assert (length (copy_at s (offset + i) new) = length s) as Hl.
    { apply length_copy_at. lia. }
    destruct (IH (copy_at s (offset + i) new) old new
                (offset + i + Z.of_nat (length new))) as (out & Hout & Hlo);
      try done; try lia.
    exists out. split; [done|]. lia.
Qed.

(** More fuel never changes an answer already given. *)
Lemma replaceAllBytes_loop_fuel fuel : forall fuel' s old new offset out,
  replaceAllBytes_loop fuel s old new offset = Some out ->
  (fuel <= fuel')%nat ->
  replaceAllBytes_loop fuel' s old new offset = Some out.
Proof.
  induction fuel as [|fuel IH]; intros fuel' s old new offset out H Hle;
    [done|].
  destruct fuel' as [|fuel']; [lia|]. simpl in *.
  destruct (bytes_Index (slice_from s offset) old =? -1); [done|].
  apply IH; [done|lia].
Qed.

(** With an empty replacement a match is found again at the same offset. *)
Lemma replaceAllBytes_loop_stuck fuel : forall s old offset post,
  slice_from s offset = old ++ post -> 0 <= offset ->
  replaceAllBytes_loop fuel s old [] offset = None.
Proof.
  induction fuel as [|fuel IH]; intros s old offset post Hs Hoff; [done|].
  simpl. rewrite Hs, bytes_Index_prefix. simpl.
  rewrite copy_at_nil, !Z.add_0_r. by eapply IH.
Qed.

Lemma replaceAllBytes_diverges fuel s old :
  occurs old s -> replaceAllBytes fuel s old [] = None.
Proof.
  intros Ho. unfold replaceAllBytes. cbn [length]. change (Z.of_nat 0) with 0.
  assert ((0 >? Z.of_nat (length old)) = false) as ->
    by (rewrite Z.gtb_ltb; apply Z.ltb_ge; lia).
  destruct fuel as [|fuel]; [done|]. simpl.
  replace (slice_from s 0) with s by (unfold slice_from; by rewrite drop_0).
  destruct (bytes_Index_spec s old) as [[_ Hno]|[Hi [post Hpost]]]; [done|].
  destruct (bytes_Index s old =? -1) eqn:Hm; [lia|].
  rewrite copy_at_nil, Z.add_0_r. simpl.
  eapply replaceAllBytes_loop_stuck; [done|lia].
Qed.

End ReplaceAllBytes.

(** ** [replaceAllBytes] against the one-pass substitution *)

Section Substitute.

Implicit Types s old new : list byte.

(** Before the index [bytes.Index] answers, [sep] starts nowhere. *)
Lemma bytes_Index_first s sep : forall j,
  (0 <= j < bytes_Index s sep) ->
  bytes_HasPrefix (slice_from s j) sep = false.
Proof.
  unfold slice_from. induction s as [|a s IH]; intros j Hj; simpl in Hj.
  - destruct (bytes_HasPrefix [] sep); lia.
  - destruct (bytes_HasPrefix (a :: s) sep) eqn:Hp; [lia|].
    destruct (bytes_Index s sep =? -1); [lia|].
    destruct (decide (j = 0)) as [->|Hne]; [done|].
    replace (Z.to_nat j) with (S (Z.to_nat (j - 1))) by lia. simpl.
    apply IH. lia.
Qed.

Lemma bytes_HasPrefix_nil s : bytes_HasPrefix s [] = true.
Proof. apply bytes_HasPrefix_true. by exists s. Qed.

(** Pending bytes are written out before anything else happens. *)
Lemma substitute_pending pending : forall s old new,
  (length pending <= length s)%nat ->
  substitute s old new pending
  = pending ++ substitute (drop (length pending) s) old new [].
Proof.
  induction pending as [|c pending IH]; intros s old new Hl; simpl.
  - by rewrite drop_0.
  - destruct s as [|b s]; simpl in *; [lia|]. rewrite IH by lia. done.
Qed.

(** Where [old] does not start, the byte is kept. *)
Lemma substitute_skip n : forall s old new,
  (forall j, 0 <= j < Z.of_nat n ->
             bytes_HasPrefix (slice_from s j) old = false) ->
  (n <= length s)%nat ->
  substitute s old new [] = take n s ++ substitute (drop n s) old new [].
Proof.
  induction n as [|n IH]; intros s old new Hno Hl; simpl.
  - by rewrite drop_0.
  - destruct s as [|b s]; simpl in *; [lia|].
    pose proof (Hno 0 ltac:(lia)) as H0. unfold slice_from in H0. simpl in H0.
    rewrite H0. f_equal. apply IH; [|lia].
    intros j Hj. specialize (Hno (j + 1) ltac:(lia)).
    unfold slice_from in *.
    replace (Z.to_nat (j + 1)) with (S (Z.to_nat j)) in Hno by lia. done.
Qed.

(** Where [old] does not occur, nothing is written. *)
Lemma substitute_absent s old new :
  ~ occurs old s -> substitute s old new [] = s.
Proof.
  induction s as [|b s IH]; intros Hno; simpl; [done|].
  destruct (bytes_HasPrefix (b :: s) old) eqn:Hp.
  - exfalso. apply Hno. apply bytes_HasPrefix_true in Hp as [post ->].
    apply occurs_here.
  - f_equal. apply IH. intros Ho. apply Hno. by apply occurs_cons.
Qed.

(** Where [old] starts, [new] is written and the search goes on behind it. *)
Lemma substitute_match s old new :
  new <> [] -> (length new <= length old)%nat ->
  bytes_HasPrefix s old = true ->
  substitute s old new [] = new ++ substitute (drop (length new) s) old new [].
Proof.
  intros Hne Hl Hp. pose proof Hp as Hp'.
  apply bytes_HasPrefix_true in Hp' as [post Hs].
  destruct new as [|c new]; [done|]. destruct s as [|b s].
  - destruct old; simpl in *; [lia|done].
  - simpl. rewrite Hp. f_equal. apply substitute_pending.
    apply (f_equal length) in Hs. rewrite length_app in Hs. simpl in *. lia.
Qed.

(** The loop, started at [offset] with the body untouched from there on,
    ends with the substitution of the rest. *)
Lemma replaceAllBytes_loop_substitute fuel : forall s old new offset,
  new <> [] -> (length new <= length old)%nat ->
  0 <= offset <= Z.of_nat (length s) ->
  (length s - Z.to_nat offset < fuel)%nat ->
  replaceAllBytes_loop fuel s old new offset
  = Some (take (Z.to_nat offset) s
          ++ substitute (slice_from s offset) old new []).
Proof.
  induction fuel as [|fuel IH]; intros s old new offset Hne Hlen Hoff Hfuel;
    [lia|].
  simpl. pose proof (bytes_Index_first (slice_from s offset) old) as Hfirst.
  destruct (bytes_Index_spec (slice_from s offset) old)
    as [[Hi Hno]|[Hi [post Hpost]]].
  - rewrite Hi. simpl. rewrite substitute_absent by done.
    unfold slice_from. by rewrite take_drop.
  - destruct (bytes_Index (slice_from s offset) old =? -1) eqn:Hm; [lia|].
    set (i := bytes_Index (slice_from s offset) old) in *.
    set (t := slice_from s offset) in *.
    assert (length new <> 0%nat) as Hpos by (destruct new; simpl; done).
    assert (Z.to_nat i + length old <= length t)%nat as Hfit.
    { apply (f_equal length) in Hpost. unfold slice_from in Hpost.
      rewrite length_drop, length_app in Hpost. lia. }
    assert (length t = (length s - Z.to_nat offset)%nat) as Ht
      by (unfold t, slice_from; apply length_drop).
    assert (slice_from s (offset + i) = slice_from t i) as Hsl.
    { unfold t, slice_from. rewrite drop_drop. f_equal. lia. }
    assert (copy_at s (offset + i) new
            = take (Z.to_nat (offset + i)) s ++ new
              ++ drop (Z.to_nat (offset + i) + length new) s) as Hcopy.
    { unfold copy_at, copy. rewrite Hsl. f_equal.
      rewrite take_ge by (unfold slice_from; rewrite length_drop; lia).
      f_equal. unfold slice_from, t, slice_from. rewrite !drop_drop.
      f_equal. lia. }
    rewrite IH; try done.
    + f_equal. rewrite Hcopy.
      rewrite (substitute_skip (Z.to_nat i) t old new);
        [|intros j Hj; apply Hfirst; lia|lia].
      rewrite (substitute_match (drop (Z.to_nat i) t) old new); try done;
        [|apply bytes_HasPrefix_true; by exists post].
      replace (Z.to_nat (offset + i + Z.of_nat (length new)))
        with (Z.to_nat (offset + i) + length new)%nat by lia.
      rewrite app_assoc.
      rewrite take_app_length'
        by (rewrite length_app, length_take; lia).
      unfold slice_from.
      rewrite drop_app_length'
        by (rewrite length_app, length_take; lia).
      rewrite <- !app_assoc. 
      replace (Z.to_nat (offset + i)) with (Z.to_nat offset + Z.to_nat i)%nat
        by lia.
      rewrite <- take_take_drop. rewrite <- app_assoc. f_equal. f_equal.
      f_equal. f_equal. unfold t, slice_from. rewrite !drop_drop. f_equal. lia.
    + rewrite length_copy_at by lia. lia.
    + rewrite length_copy_at by lia. lia.
Qed.

End Substitute.

(** ** Strings and paths *)

Section Strings.

Implicit Types s a b p : string.

Lemma chars_app a b : chars (a +:+ b) = chars a ++ chars b.
Proof. induction a as [|c a IH]; simpl; [done|]. by rewrite IH. Qed.

Lemma length_chars s : length (chars s) = String.length s.
Proof. induction s as [|c s IH]; simpl; [done|]. by rewrite IH. Qed.

Lemma of_chars_app (x y : list ascii) :
  of_chars (x ++ y) = of_chars x +:+ of_chars y.
Proof. induction x as [|c x IH]; simpl; [done|]. by rewrite IH. Qed.

Lemma string_length_app a b :
  String.length (a +:+ b) = (String.length a + String.length b)%nat.
Proof. by rewrite <- !length_chars, chars_app, length_app. Qed.

(** [strings.TrimSuffix] takes a suffix off. *)
Lemma strings_TrimSuffix_app a b : strings_TrimSuffix (a +:+ b) b = a.
Proof.
  unfold strings_TrimSuffix, strings_HasSuffix.
  rewrite string_length_app, chars_app.
  replace (String.length a + String.length b - String.length b)%nat
    with (length (chars a)) by (rewrite length_chars; lia).
  rewrite drop_app_length, take_app_length.
  rewrite bool_decide_eq_true_2 by done.
  replace (String.length b <=? String.length a + String.length b)%nat
    with true by (symmetry; apply Nat.leb_le; lia).
  simpl. apply String.string_of_list_ascii_of_string.
Qed.

(** The scan of [path.Ext] returns a suffix of what it was given. *)
Lemma ext_scan_suffix r : forall acc,
  exists pre, rev r ++ acc = pre ++ ext_scan r acc.
Proof.
  induction r as [|c r IH]; intros acc; simpl.
  - exists acc. by rewrite app_nil_r.
  - rewrite <- app_assoc. simpl. repeat case_bool_decide.
    + exists (rev r ++ c :: acc). by rewrite app_nil_r.
    + by exists (rev r).
    + apply IH.
Qed.

(** [path.Ext(p)] is a suffix of [p]: the name is a stem followed by its
    extension. *)
Lemma path_Ext_suffix p : exists stem, p = stem +:+ path_Ext p.
Proof.
  unfold path_Ext. destruct (ext_scan_suffix (rev (chars p)) []) as [pre H].
  rewrite rev_involutive, app_nil_r in H. exists (of_chars pre).
  rewrite <- of_chars_app, <- H.
  symmetry. apply String.string_of_list_ascii_of_string.
Qed.

End Strings.

(** ** What each step of a job leaves alone *)

Section Frames.

Variable env : Env.
Variable config : Config.

Lemma housekeeping_refl w : housekeeping w w.
Proof. repeat split. Qed.

Lemma housekeeping_trans w1 w2 w3 :
  housekeeping w1 w2 -> housekeeping w2 w3 -> housekeeping w1 w3.
Proof. unfold housekeeping. intros H1 H2. intuition congruence. Qed.

Lemma housekeeping_unseen w w' : housekeeping w w' -> unseen w w'.
Proof. unfold housekeeping, unseen. intuition. Qed.

Lemma unseen_refl w : unseen w w.
Proof. repeat split. Qed.

Lemma unseen_trans w1 w2 w3 : unseen w1 w2 -> unseen w2 w3 -> unseen w1 w3.
Proof. unfold unseen. intros H1 H2. intuition congruence. Qed.

Lemma housekeeping_Printf l line w : housekeeping w (Printf l line w).
Proof. repeat split. Qed.

Lemma housekeeping_set_fs f w : housekeeping w (set_fs f w).
Proof. repeat split. Qed.

Lemma housekeeping_release_form w : housekeeping w (release_form w).
Proof. repeat split. Qed.

Lemma housekeeping_logf tp line w : housekeeping w (logf tp line w).
Proof. unfold logf. destruct (logger tp); repeat split. Qed.

Lemma housekeeping_log_failure tp what err w :
  housekeeping w (log_failure tp what err w).
Proof.
  destruct err; [apply housekeeping_logf | apply housekeeping_refl].
Qed.

Lemma housekeeping_remove_path err p w : housekeeping w (remove_path err p w).
Proof. destruct err; repeat split. Qed.

Lemma CleanOriginalFile_housekeeping tp w err tp' w' :
  CleanOriginalFile env tp w = (err, tp', w') -> housekeeping w w'.
Proof.
  unfold CleanOriginalFile. intros H.
  repeat case_match; simplify_eq;
    repeat (eapply housekeeping_trans;
            [|first [apply housekeeping_log_failure
                    |apply housekeeping_remove_path]]);
    apply housekeeping_refl.
Qed.

Lemma CleanWorkDir_housekeeping tp w err tp' w' :
  CleanWorkDir env tp w = (err, tp', w') -> housekeeping w w'.
Proof.
  unfold CleanWorkDir. intros H.
  case_match; simplify_eq; [apply housekeeping_refl|].
  eapply housekeeping_trans;
    [apply housekeeping_remove_path | apply housekeeping_log_failure].
Qed.

Lemma Close_housekeeping tp w err tp' w' :
  Close env tp w = (err, tp', w') -> housekeeping w w'.
Proof.
  unfold Close. intros H.
  destruct (CleanOriginalFile env tp w) as [[e1 tp1] w1] eqn:H1.
  eapply housekeeping_trans;
    [by eapply CleanOriginalFile_housekeeping
    |by eapply CleanWorkDir_housekeeping].
Qed.

Lemma NewTaskProcessorFromMultipart_housekeeping header w res w' :
  NewTaskProcessorFromMultipart env config header w = (res, w') ->
  housekeeping w w'.
Proof.
  unfold NewTaskProcessorFromMultipart. intros H.
  repeat case_match; simplify_eq;
    first [apply housekeeping_refl | apply housekeeping_set_fs].
Qed.

(** [Run] shows nothing to the client, the upstream server, the job table
    or the checksum store. *)
Lemma Run_unseen tp w res tp' w' :
  Run env tp w = (res, tp', w') -> unseen w w'.
Proof.
  unfold Run, Run_locked, os_ReadDir. intros H.
  repeat case_match; simplify_eq; unfold logf;
    repeat case_match; repeat split.
Qed.

(** How [uploadUpstream] ends does not depend on the state. *)
Lemma uploadUpstream_result file name w :
  fst (uploadUpstream env file name w) = upstream_result env file name.
Proof.
  unfold upstream_result, uploadUpstream. repeat case_match; done.
Qed.

(** [uploadUpstream] is one call more in the trace, and touches neither the
    job table nor the checksum store nor the temporary files. *)
Lemma uploadUpstream_effect file name w res w' :
  uploadUpstream env file name w = (res, w') ->
  uploads (trace w') = (file, name) :: uploads (trace w)
  /\ jobs w' = jobs w /\ jobIdCounter w' = jobIdCounter w
  /\ checksums w' = checksums w /\ fs w' = fs w
  /\ commands (trace w') = commands (trace w)
  /\ acquired (trace w') = acquired (trace w)
  /\ http_errors (trace w') = http_errors (trace w).
Proof.
  unfold uploadUpstream. intros H.
  repeat case_match; simplify_eq; repeat split.
Qed.

End Frames.

(** ** The job, step by step *)

Section JobSteps.

Variable env : Env.
Variable config : Config.

(** A job whose form file was read and whose key is free runs
    [newJob_registered] from the [registered] state, then takes its key out
    of the table and releases the form. *)
Lemma newJob_unfold r logger w header :
  FormFile r = Ok header ->
  jobs w !! jobKeyOf header = None ->
  newJob env config r logger w
  = let '(res, w1) :=
      newJob_registered env config (jobLoggerOf logger w) (jobIDOf w) header
        (registered logger header w) in
    (res, release_form (set_jobs (delete (jobKeyOf header) (jobs w1)) w1)).
Proof.
  intros Hf Hk. unfold newJob, newJob_dedup, registered, jobLoggerOf, jobIDOf.
  rewrite Hf. simpl. rewrite Hk.
  by destruct (newJob_registered _ _ _ _ _ _).
Qed.


(** The forwarding step: one call of [uploadUpstream] with the chosen file
    and name, whatever follows. *)
Lemma newJob_forward_effect jl header otp file name orig oh w res w' :
  newJob_forward env jl header otp file name orig oh w = (res, w') ->
  uploads (trace w') = (file, name) :: uploads (trace w)
  /\ jobs w' = jobs w /\ jobIdCounter w' = jobIdCounter w /\ fs w' = fs w
  /\ commands (trace w') = commands (trace w)
  /\ acquired (trace w') = acquired (trace w).
Proof.
  unfold newJob_forward. intros H.
  destruct (uploadUpstream env file name w) as [r1 w1] eqn:Hu.
  apply uploadUpstream_effect in Hu as (Hup & Hj & Hc & Hs & Hfs & Hcmd & Hacq & _).
  repeat case_match; simplify_eq; simpl; rewrite ?Hup, ?Hj, ?Hc, ?Hfs, ?Hcmd, ?Hacq;
    done.
Qed.

(** Forwarding the original records nothing. *)
Lemma newJob_forward_original jl header otp file name oh w res w' :
  newJob_forward env jl header otp file name true oh w = (res, w') ->
  checksums w' = checksums w.
Proof.
  unfold newJob_forward. intros H.
  destruct (uploadUpstream env file name w) as [r1 w1] eqn:Hu.
  apply uploadUpstream_effect in Hu as (_ & _ & _ & Hs & _).
  repeat case_match; simplify_eq; simpl; done.
Qed.

(** Forwarding the processed file: when the call returns, with an error or
    without, and the hash of the processed file is computed, the pair is
    recorded and the job ends well; an error of the call is answered with a
    server error on the way. *)
Lemma newJob_forward_processed jl header tp file name oh w err ph :
  upstream_result env file name = Returned err ->
  SHA1 env (ProcessedFile tp) = Ok ph ->
  exists w',
    newJob_forward env jl header (Some tp) file name false oh w
    = (Returned None, w')
    /\ checksums w' = checksums w ++ [(ph, oh)]
    /\ http_errors (trace w')
       = match err with
         | Some _ =>
             ("failed to process file, view IUO logs for more info",
              StatusInternalServerError) :: http_errors (trace w)
         | None => http_errors (trace w)
         end.
Proof.
  intros Hr Hh. unfold newJob_forward.
  destruct (uploadUpstream env file name w) as [r1 w1] eqn:Hu.
  pose proof (uploadUpstream_result env file name w) as Hfst.
  rewrite Hu in Hfst. simpl in Hfst. rewrite Hr in Hfst. subst r1.
  apply uploadUpstream_effect in Hu as (_ & _ & _ & Hs & _ & _ & _ & He).
  rewrite Hh. destruct err; eexists; (split; [reflexivity|]); simpl;
    rewrite Hs, ?He; done.
Qed.

(** When the hash of the processed file cannot be computed, or the call
    panics, nothing is recorded. *)
Lemma newJob_forward_unrecorded jl header tp file name oh w res w' :
  newJob_forward env jl header (Some tp) file name false oh w = (res, w') ->
  (exists e, SHA1 env (ProcessedFile tp) = Err e)
  \/ upstream_result env file name = Panicked ->
  checksums w' = checksums w.
Proof.
  unfold newJob_forward. intros H Hor.
  destruct (uploadUpstream env file name w) as [r1 w1] eqn:Hu.
  pose proof (uploadUpstream_result env file name w) as Hfst.
  rewrite Hu in Hfst. simpl in Hfst.
  apply uploadUpstream_effect in Hu as (_ & _ & _ & Hs & _).
  destruct r1 as [err|]; [|by simplify_eq].
  destruct Hor as [[e He]|Hp]; [|congruence].
  rewrite He in H. destruct err; simplify_eq; done.
Qed.

End JobSteps.

(** ** The session through a job *)

Section Session.

Variable env : Env.
Variable config : Config.

(** What [NewTaskProcessorFromMultipart] hands out when it succeeds. *)
Lemma NewTaskProcessorFromMultipart_Ok header w tp w1 :
  NewTaskProcessorFromMultipart env config header w = (Ok tp, w1) ->
  OriginalFilename tp = Filename header
  /\ OriginalExtension tp = path_Ext (Filename header)
  /\ OriginalSize tp = Size header
  /\ OriginalFile tp = Some (OsFile (tempOriginalFilePath tp))
  /\ tempWorkDir tp = ""
  /\ fs w1 = <[tempOriginalFilePath tp := TempFile]> (fs w)
  /\ findTask config
       (strings_ToLower (strings_TrimPrefix (path_Ext (Filename header)) "."))
     = Some (tpTask tp)
  /\ MinFilesizeBytes (tpTask tp) <= Size header.
Proof.
  unfold NewTaskProcessorFromMultipart. intros H.
  repeat case_match; simplify_eq. simpl. repeat split; try done. lia.
Qed.

(** An upload that matches no task, or is below the minimum size of its
    task, gets no session, and nothing is created for it. *)
Lemma NewTaskProcessorFromMultipart_unmatched header w :
  let checkExt :=
    strings_ToLower (strings_TrimPrefix (path_Ext (Filename header)) ".") in
  findTask config checkExt = None
  \/ (exists t, findTask config checkExt = Some t
                /\ Size header < MinFilesizeBytes t) ->
  exists e, NewTaskProcessorFromMultipart env config header w = (Err e, w).
Proof.
  intros checkExt H. unfold NewTaskProcessorFromMultipart.
  destruct (negb (isValidFilename (path_Ext (Filename header))));
    [by eexists|].
  fold checkExt. destruct H as [->|(t & -> & Hlt)]; [by eexists|].
  apply Z.ltb_lt in Hlt. rewrite Hlt. by eexists.
Qed.

(** [Run] changes the processed side of the session and its work
    directory, nothing else. *)
Lemma Run_keeps_original tp w res tp' w' :
  Run env tp w = (res, tp', w') ->
  OriginalFile tp' = OriginalFile tp
  /\ OriginalFilename tp' = OriginalFilename tp
  /\ OriginalExtension tp' = OriginalExtension tp
  /\ OriginalSize tp' = OriginalSize tp
  /\ tempOriginalFilePath tp' = tempOriginalFilePath tp.
Proof.
  unfold Run, Run_locked. intros H.
  repeat case_match; simplify_eq; repeat split.
Qed.

Lemma CleanOriginalFile_keeps_processed tp w err tp' w' :
  CleanOriginalFile env tp w = (err, tp', w') ->
  ProcessedFile tp' = ProcessedFile tp
  /\ ProcessedFilename tp' = ProcessedFilename tp
  /\ ProcessedSize tp' = ProcessedSize tp
  /\ tempWorkDir tp' = tempWorkDir tp.
Proof.
  unfold CleanOriginalFile. intros H.
  repeat case_match; simplify_eq; repeat split.
Qed.

(** With a session, the job is [newJob_process], the deferred [Close], and
    the end of [newJob]. *)
Lemma newJob_session r logger w header tp w1 :
  FormFile r = Ok header ->
  jobs w !! jobKeyOf header = None ->
  NewTaskProcessorFromMultipart env config header (registered logger header w)
  = (Ok tp, w1) ->
  newJob env config r logger w
  = let '(res, tp3, w3) :=
      newJob_process env (jobLoggerOf logger w) (jobIDOf w) header tp w1 in
    let '(_, _, w4) := Close env tp3 w3 in
    (res, release_form (set_jobs (delete (jobKeyOf header) (jobs w4)) w4)).
Proof.
  intros Hf Hk Hn. rewrite (newJob_unfold _ _ _ _ _ header) by done.
  unfold newJob_registered. rewrite Hn.
  destruct (newJob_process _ _ _ _ _ _) as [[res tp3] w3].
  by destruct (Close env tp3 w3) as [[? ?] w4].
Qed.

(** Without a session, the job forwards the form file under its own name. *)
Lemma newJob_passthrough r logger w header e w1 :
  FormFile r = Ok header ->
  jobs w !! jobKeyOf header = None ->
  NewTaskProcessorFromMultipart env config header (registered logger header w)
  = (Err e, w1) ->
  newJob env config r logger w
  = let '(res, w3) :=
      newJob_forward env (jobLoggerOf logger w) header None
        (Some MultipartFile) (Filename header) true "" w1 in
    (res, release_form (set_jobs (delete (jobKeyOf header) (jobs w3)) w3)).
Proof.
  intros Hf Hk Hn. rewrite (newJob_unfold _ _ _ _ _ header) by done.
  unfold newJob_registered. by rewrite Hn.
Qed.

(** The state a job goes on from shows what the state it arrived in
    showed, and has the key of the job in its table. *)
Lemma registered_shows logger header w :
  checksums (registered logger header w) = checksums w
  /\ uploads (trace (registered logger header w)) = uploads (trace w)
  /\ commands (trace (registered logger header w)) = commands (trace w)
  /\ acquired (trace (registered logger header w)) = acquired (trace w)
  /\ http_errors (trace (registered logger header w)) = http_errors (trace w)
  /\ fs (registered logger header w) = fs w
  /\ jobs (registered logger header w)
     = <[jobKeyOf header := jobIDOf w]> (jobs w).
Proof. repeat split. Qed.

(** The end of [newJob], after the deferred [Close]. *)
Lemma epilogue_shows key w :
  let w' := release_form (set_jobs (delete key (jobs w)) w) in
  checksums w' = checksums w
  /\ uploads (trace w') = uploads (trace w)
  /\ commands (trace w') = commands (trace w)
  /\ acquired (trace w') = acquired (trace w)
  /\ http_errors (trace w') = http_errors (trace w)
  /\ fs w' = fs w
  /\ jobs w' = delete key (jobs w).
Proof. repeat split. Qed.

End Session.

(** ** The job around its conversion *)

Section Process.

Variable env : Env.
Variable config : Config.

(** From the arrival of the request to the end of [Run], nothing is
    forwarded, recorded or answered. *)
Lemma before_choice logger header w tp w1 tp0 res tp2 w2 :
  NewTaskProcessorFromMultipart env config header (registered logger header w)
  = (Ok tp, w1) ->
  Run env tp0 (release_form w1) = (res, tp2, w2) ->
  checksums w2 = checksums w
  /\ uploads (trace w2) = uploads (trace w)
  /\ http_errors (trace w2) = http_errors (trace w).
Proof.
  intros Hn Hr.
  apply NewTaskProcessorFromMultipart_housekeeping in Hn
    as (_ & _ & Hc & Hu & _ & _ & He).
  apply Run_unseen in Hr as (_ & _ & Hc2 & Hu2 & He2).
  simpl in *. repeat split; congruence.
Qed.

(** From the end of [newJob_process] to the end of the job, likewise. *)
Lemma after_choice key tp3 w3 e tp4 w4 :
  Close env tp3 w3 = (e, tp4, w4) ->
  let w' := release_form (set_jobs (delete key (jobs w4)) w4) in
  checksums w' = checksums w3
  /\ uploads (trace w') = uploads (trace w3)
  /\ http_errors (trace w') = http_errors (trace w3)
  /\ commands (trace w') = commands (trace w3)
  /\ acquired (trace w') = acquired (trace w3)
  /\ jobs w' = delete key (jobs w3).
Proof.
  intros Hc. apply Close_housekeeping in Hc as (_ & Hj & Hc & Hu & Hm & Ha & He).
  simpl. rewrite Hj. repeat split; done.
Qed.

(** A failed conversion ends [newJob_process] on the spot. *)
Lemma newJob_process_failed jl id header tp w1 err tp2 w2 :
  Run env (SetLogger tp jl) (release_form w1) = (Returned (Some err), tp2, w2) ->
  newJob_process env jl id header tp w1
  = (Returned (Some ("failed to process file in job " +:+ Zs id +:+ ": "
                     +:+ err)), tp2, w2).
Proof. intros H. unfold newJob_process. by rewrite H. Qed.

(** A processed file that is not smaller: the original goes upstream under
    the name it came with, and nothing is recorded. *)
Lemma newJob_process_original jl id header tp w1 tp2 w2 :
  Run env (SetLogger tp jl) (release_form w1) = (Returned None, tp2, w2) ->
  OriginalSize tp2 <= ProcessedSize tp2 ->
  exists res tp3 w3,
    newJob_process env jl id header tp w1 = (res, tp3, w3)
    /\ uploads (trace w3)
       = (OriginalFile tp2, Filename header) :: uploads (trace w2)
    /\ checksums w3 = checksums w2.
Proof.
  intros H Hle. unfold newJob_process. rewrite H.
  apply Z.leb_le in Hle. rewrite Hle.
  destruct (CleanWorkDir env tp2 w2) as [[e tp3] w3] eqn:Hc.
  apply CleanWorkDir_housekeeping in Hc as (_ & _ & Hcs & Hu & _).
  destruct (newJob_forward env jl header (Some tp3) (OriginalFile tp2)
              (Filename header) true "" w3) as [res w4] eqn:Hf.
  exists res, tp3, w4. split; [done|].
  pose proof (newJob_forward_original _ _ _ _ _ _ _ _ _ _ Hf) as Hcs4.
  apply newJob_forward_effect in Hf as (Hu4 & _).
  split; congruence.
Qed.

(** A smaller processed file whose original cannot be hashed: the job ends
    there. *)
Lemma newJob_process_unhashed jl id header tp w1 tp2 w2 e :
  Run env (SetLogger tp jl) (release_form w1) = (Returned None, tp2, w2) ->
  ProcessedSize tp2 < OriginalSize tp2 ->
  SHA1 env (OriginalFile tp2) = Err e ->
  newJob_process env jl id header tp w1
  = (Returned (Some ("sha1: " +:+ e)), tp2, w2).
Proof.
  intros H Hlt Hs. unfold newJob_process. rewrite H.
  replace (OriginalSize tp2 <=? ProcessedSize tp2) with false
    by (symmetry; apply Z.leb_gt; lia).
  by rewrite Hs.
Qed.

(** A smaller processed file whose original is hashed: the processed file
    goes upstream under its derived name; the pair of hashes is recorded
    when the forwarding call returns and the processed file is hashed, and
    is not recorded otherwise. *)
Lemma newJob_process_processed jl id header tp w1 tp2 w2 oh :
  Run env (SetLogger tp jl) (release_form w1) = (Returned None, tp2, w2) ->
  ProcessedSize tp2 < OriginalSize tp2 ->
  SHA1 env (OriginalFile tp2) = Ok oh ->
  exists res tp3 w3,
    newJob_process env jl id header tp w1 = (res, tp3, w3)
    /\ uploads (trace w3)
       = (ProcessedFile tp2, ProcessedFilename tp2) :: uploads (trace w2)
    /\ (forall err ph,
          upstream_result env (ProcessedFile tp2) (ProcessedFilename tp2)
          = Returned err ->
          SHA1 env (ProcessedFile tp2) = Ok ph ->
          res = Returned None
          /\ checksums w3 = checksums w2 ++ [(ph, oh)]
          /\ http_errors (trace w3)
             = match err with
               | Some _ =>
                   ("failed to process file, view IUO logs for more info",
                    StatusInternalServerError) :: http_errors (trace w2)
               | None => http_errors (trace w2)
               end)
    /\ ((exists e, SHA1 env (ProcessedFile tp2) = Err e)
        \/ upstream_result env (ProcessedFile tp2) (ProcessedFilename tp2)
           = Panicked ->
        checksums w3 = checksums w2).
Proof.
  intros H Hlt Hs. unfold newJob_process. rewrite H.
  replace (OriginalSize tp2 <=? ProcessedSize tp2) with false
    by (symmetry; apply Z.leb_gt; lia).
  rewrite Hs.
  destruct (CleanOriginalFile env tp2 w2) as [[e tp3] w3] eqn:Hc.
  pose proof (CleanOriginalFile_keeps_processed _ _ _ _ _ _ Hc)
    as (Hpf & _).
  apply CleanOriginalFile_housekeeping in Hc as (_ & _ & Hcs & Hu & _ & _ & He).
  destruct (newJob_forward env jl header (Some tp3) (ProcessedFile tp2)
              (ProcessedFilename tp2) false oh w3) as [res w4] eqn:Hf.
  exists res, tp3, w4. split; [done|]. split; [|split].
  - apply newJob_forward_effect in Hf as (Hu4 & _). congruence.
  - intros err ph Hup Hph. rewrite <- Hpf in Hph.
    destruct (newJob_forward_processed env jl header tp3 _ _ oh w3 err ph
                Hup Hph) as (w5 & Hf5 & Hcs5 & He5).
    rewrite Hf in Hf5. simplify_eq. rewrite Hcs5, He5, Hcs, He. done.
  - intros Hor.
    rewrite (newJob_forward_unrecorded _ _ _ _ _ _ _ _ _ _ Hf); [done|].
    by rewrite Hpf.
Qed.

End Process.

(** ** The job table through a job *)

Section Table.

Variable env : Env.
Variable config : Config.

Lemma newJob_process_table jl id header tp w res tp' w' :
  newJob_process env jl id header tp w = (res, tp', w') ->
  jobs w' = jobs w.
Proof.
  unfold newJob_process. intros H.
  destruct (Run env (SetLogger tp jl) (release_form w)) as [[rr tp2] w2] eqn:Hr.
  apply Run_unseen in Hr as (_ & Hj & _). simpl in Hj.
  destruct rr as [[err|]|]; [by simplify_eq| |by simplify_eq].
  destruct (OriginalSize tp2 <=? ProcessedSize tp2).
  - destruct (CleanWorkDir env tp2 w2) as [[e tp3] w3] eqn:Hc.
    apply CleanWorkDir_housekeeping in Hc as (_ & Hj3 & _).
    destruct (newJob_forward _ _ _ _ _ _ _ _ _) as [r4 w4] eqn:Hf.
    apply newJob_forward_effect in Hf as (_ & Hj4 & _).
    simplify_eq. congruence.
  - destruct (SHA1 env (OriginalFile tp2)); [|by simplify_eq].
    destruct (CleanOriginalFile env tp2 w2) as [[e tp3] w3] eqn:Hc.
    apply CleanOriginalFile_housekeeping in Hc as (_ & Hj3 & _).
    destruct (newJob_forward _ _ _ _ _ _ _ _ _) as [r4 w4] eqn:Hf.
    apply newJob_forward_effect in Hf as (_ & Hj4 & _).
    simplify_eq. congruence.
Qed.

(** Between the registration and the deferred [jobs.Delete] the job does
    not touch the job table. *)
Lemma newJob_registered_table jl id header w res w' :
  newJob_registered env config jl id header w = (res, w') ->
  jobs w' = jobs w.
Proof.
  unfold newJob_registered. intros H.
  destruct (NewTaskProcessorFromMultipart env config header w)
    as [[tp|e] w1] eqn:Hn;
    apply NewTaskProcessorFromMultipart_housekeeping in Hn as (_ & Hj1 & _).
  - destruct (newJob_process env jl id header tp w1) as [[r3 tp3] w3] eqn:Hp.
    apply newJob_process_table in Hp.
    destruct (Close env tp3 w3) as [[e4 tp4] w4] eqn:Hc.
    apply Close_housekeeping in Hc as (_ & Hj4 & _).
    simplify_eq. congruence.
  - apply newJob_forward_effect in H as (_ & Hj & _). congruence.
Qed.

End Table.

(** ** Temporary files and directories through a job *)

Section Release.

Variable env : Env.
Variable config : Config.
Hypothesis env_tidy : tidy env.

Lemma confined_NewTaskProcessorFromMultipart header w tp w1 :
  NewTaskProcessorFromMultipart env config header w = (Ok tp, w1) ->
  confined w w1 tp.
Proof.
  intros H. destruct env_tidy as (Hct & _).
  unfold NewTaskProcessorFromMultipart in H.
  repeat case_match; simplify_eq. intros p n. simpl.
  rewrite lookup_insert. case_decide; [|by left].
  intros _. subst. right. split; [by eapply Hct|by left].
Qed.

Lemma confined_SetLogger w0 w tp l :
  confined w0 w tp -> confined w0 w (SetLogger tp l).
Proof. done. Qed.

Lemma confined_fs w0 w w' tp :
  fs w' = fs w -> confined w0 w tp -> confined w0 w' tp.
Proof. unfold confined. intros ->. done. Qed.

Lemma fs_logf tp line w : fs (logf tp line w) = fs w.
Proof. unfold logf. by destruct (logger tp). Qed.

Lemma fs_log_failure tp what err w : fs (log_failure tp what err w) = fs w.
Proof. destruct err; [apply fs_logf|done]. Qed.

(** [Run] makes at most its work directory. *)
Lemma Run_fs tp w res tp' w' :
  Run env tp w = (res, tp', w') ->
  tempOriginalFilePath tp' = tempOriginalFilePath tp
  /\ ((fs w' = fs w /\ tempWorkDir tp' = "")
      \/ exists dir entries,
           os_MkdirTemp env "processing-*" = Ok dir
           /\ tempWorkDir tp' = dir
           /\ fs w' = <[dir := TempDir entries]> (fs w)).
Proof.
  unfold Run, Run_locked, os_ReadDir. intros H.
  repeat case_match; simplify_eq; simpl; rewrite ?fs_logf; simpl;
    (split; [done|]);
    first [ by left
          | right; eexists _, _; split; [done|]; split; [done|];
            rewrite ?insert_insert_eq; done ].
Qed.

Lemma confined_Run w0 tp w res tp' w' :
  tempWorkDir tp = "" ->
  confined w0 w tp ->
  Run env tp w = (res, tp', w') ->
  confined w0 w' tp'.
Proof.
  intros Hd0 Hc H. destruct env_tidy as (_ & Hmk & _).
  destruct (Run_fs _ _ _ _ _ H)
    as (Ho & [[Hfs Hd]|(dir & entries & Hm & Hd & Hfs)]);
    intros p n; rewrite Hfs.
  - intros Hp. destruct (Hc p n Hp) as [?|(Hne & [?|?])]; [by left| |].
    + right. split; [done|]. left. congruence.
    + congruence.
  - rewrite lookup_insert. case_decide.
    + intros _. subst p. right. split; [by eapply Hmk|by right].
    + intros Hp. destruct (Hc p n Hp) as [?|(Hne & [?|?])]; [by left| |].
      * right. split; [done|]. left. congruence.
      * congruence.
Qed.

Lemma CleanOriginalFile_releases w0 tp w e tp' w' :
  confined w0 w tp ->
  CleanOriginalFile env tp w = (e, tp', w') ->
  confined w0 w' tp'
  /\ tempOriginalFilePath tp' = "" /\ tempWorkDir tp' = tempWorkDir tp.
Proof.
  intros Hc H. destruct env_tidy as (_ & _ & Hrm & _).
  unfold CleanOriginalFile in H.
  destruct (OriginalFile tp) as [f|]; case_bool_decide as Hne;
    simplify_eq; rewrite ?Hrm; simpl.
  all: try (apply dec_stable in Hne).
  all: split; [|done].
  all: intros p n; rewrite ?fs_log_failure; simpl;
       rewrite ?fs_log_failure, ?lookup_delete; try case_decide; try done.
  all: intros Hp; destruct (Hc p n Hp) as [?|(? & [?|?])];
       simpl in *; try (by left); try congruence;
       try (right; split; [done|by right]).
Qed.

Lemma CleanWorkDir_releases w0 tp w e tp' w' :
  confined w0 w tp ->
  CleanWorkDir env tp w = (e, tp', w') ->
  confined w0 w' tp'
  /\ tempWorkDir tp' = ""
  /\ tempOriginalFilePath tp' = tempOriginalFilePath tp.
Proof.
  intros Hc H. destruct env_tidy as (_ & _ & _ & Hrm).
  unfold CleanWorkDir in H. case_bool_decide; simplify_eq.
  - split; [|done]. done.
  - rewrite Hrm. simpl. split; [|done]. intros p n. simpl.
    rewrite lookup_delete. case_decide; [done|].
    intros Hp. destruct (Hc p n Hp) as [?|(? & [?|?])];
      try (by left); try congruence;
      try (right; split; [done|by left]).
Qed.

(** After [Close] nothing the session made is left. *)
Lemma Close_releases w0 tp w e tp' w' :
  confined w0 w tp ->
  Close env tp w = (e, tp', w') ->
  forall p n, fs w' !! p = Some n -> fs w0 !! p = Some n.
Proof.
  intros Hc H. unfold Close in H.
  destruct (CleanOriginalFile env tp w) as [[e1 tp1] w1] eqn:H1.
  destruct (CleanOriginalFile_releases _ _ _ _ _ _ Hc H1) as (Hc1 & Ho1 & _).
  destruct (CleanWorkDir_releases _ _ _ _ _ _ Hc1 H) as (Hc2 & Hd2 & Ho2).
  intros p n Hp. destruct (Hc2 p n Hp) as [?|(Hne & [?|?])]; [done| |];
    congruence.
Qed.

Lemma confined_newJob_process w0 jl id header tp w res tp' w' :
  tempWorkDir tp = "" ->
  confined w0 w tp ->
  newJob_process env jl id header tp w = (res, tp', w') ->
  confined w0 w' tp'.
Proof.
  intros Hd Hc H. unfold newJob_process in H.
  destruct (Run env (SetLogger tp jl) (release_form w)) as [[rr tp2] w2] eqn:Hr.
  apply (confined_Run w0) in Hr; [|done|done].
  destruct rr as [[err|]|]; [by simplify_eq| |by simplify_eq].
  destruct (OriginalSize tp2 <=? ProcessedSize tp2).
  - destruct (CleanWorkDir env tp2 w2) as [[e tp3] w3] eqn:Hcl.
    destruct (CleanWorkDir_releases _ _ _ _ _ _ Hr Hcl) as (Hc3 & _).
    destruct (newJob_forward _ _ _ _ _ _ _ _ _) as [r4 w4] eqn:Hf.
    apply newJob_forward_effect in Hf as (_ & _ & _ & Hfs & _).
    simplify_eq. by eapply confined_fs.
  - destruct (SHA1 env (OriginalFile tp2)); [|by simplify_eq].
    destruct (CleanOriginalFile env tp2 w2) as [[e tp3] w3] eqn:Hcl.
    destruct (CleanOriginalFile_releases _ _ _ _ _ _ Hr Hcl) as (Hc3 & _).
    destruct (newJob_forward _ _ _ _ _ _ _ _ _) as [r4 w4] eqn:Hf.
    apply newJob_forward_effect in Hf as (_ & _ & _ & Hfs & _).
    simplify_eq. by eapply confined_fs.
Qed.

(** X14. A job whose session was created leaves no temporary path behind,
    however it ends (also with an error or a panic), as long as created
    paths have names and the removals succeed: every temporary path there
    is after the job was there before it. *)
Lemma newJob_session_released r logger w header tp w1 res w' :
  FormFile r = Ok header ->
  jobs w !! jobKeyOf header = None ->
  NewTaskProcessorFromMultipart env config header (registered logger header w)
  = (Ok tp, w1) ->
  newJob env config r logger w = (res, w') ->
  forall p n, fs w' !! p = Some n -> fs w !! p = Some n.
Proof.
  intros Hf Hk Hn H.
  rewrite (newJob_session env config r logger w header tp w1 Hf Hk Hn) in H.
  pose proof (confined_NewTaskProcessorFromMultipart _ _ _ _ Hn) as Hc.
  apply NewTaskProcessorFromMultipart_Ok in Hn as (_ & _ & _ & _ & Hd & _).
  destruct (newJob_process env _ _ header tp w1) as [[r3 tp3] w3] eqn:Hp.
  apply (confined_newJob_process (registered logger header w)) in Hp;
    [|done|done].
  destruct (Close env tp3 w3) as [[e4 tp4] w4] eqn:Hcl.
  simplify_eq. simpl. intros p n Hpn.
  by apply (Close_releases _ _ _ _ _ _ Hp Hcl).
Qed.

End Release.

(** ** What reaches the client, and the semaphores *)

Section Quiet.

Variable env : Env.
Variable config : Config.

Lemma responses_logf tp line w :
  responses (trace (logf tp line w)) = responses (trace w).
Proof. unfold logf. by destruct (logger tp). Qed.

Lemma responses_log_failure tp what err w :
  responses (trace (log_failure tp what err w)) = responses (trace w).
Proof. destruct err; [apply responses_logf|done]. Qed.

Lemma responses_remove_path err p w :
  responses (trace (remove_path err p w)) = responses (trace w).
Proof. by destruct err. Qed.

Lemma CleanOriginalFile_responses tp w err tp' w' :
  CleanOriginalFile env tp w = (err, tp', w') ->
  responses (trace w') = responses (trace w).
Proof.
  unfold CleanOriginalFile. intros H.
  repeat case_match; simplify_eq;
    rewrite ?responses_log_failure, ?responses_remove_path,
      ?responses_log_failure; done.
Qed.

Lemma CleanWorkDir_responses tp w err tp' w' :
  CleanWorkDir env tp w = (err, tp', w') ->
  responses (trace w') = responses (trace w).
Proof.
  unfold CleanWorkDir. intros H. case_match; simplify_eq; [done|].
  by rewrite responses_log_failure, responses_remove_path.
Qed.

Lemma Close_responses tp w err tp' w' :
  Close env tp w = (err, tp', w') ->
  responses (trace w') = responses (trace w).
Proof.
  unfold Close. intros H.
  destruct (CleanOriginalFile env tp w) as [[e1 tp1] w1] eqn:H1.
  apply CleanOriginalFile_responses in H1. apply CleanWorkDir_responses in H.
  congruence.
Qed.

Lemma NewTaskProcessorFromMultipart_trace header w res w' :
  NewTaskProcessorFromMultipart env config header w = (res, w') ->
  trace w' = trace w.
Proof.
  unfold NewTaskProcessorFromMultipart. intros H.
  repeat case_match; simplify_eq; done.
Qed.

Lemma Run_responses tp w res tp' w' :
  Run env tp w = (res, tp', w') ->
  responses (trace w') = responses (trace w).
Proof.
  unfold Run, Run_locked, os_ReadDir. intros H.
  repeat case_match; simplify_eq; simpl; rewrite ?responses_logf; done.
Qed.

End Quiet.

(** ** Every way through a job *)

Section Paths.

Variable env : Env.
Variable config : Config.

(** Forwarding the original ends well whenever the call returns. *)
Lemma newJob_forward_original_result jl header otp file name oh w err :
  upstream_result env file name = Returned err ->
  exists w', newJob_forward env jl header otp file name true oh w
             = (Returned None, w').
Proof.
  intros Hr. unfold newJob_forward.
  destruct (uploadUpstream env file name w) as [r1 w1] eqn:Hu.
  pose proof (uploadUpstream_result env file name w) as Hfst.
  rewrite Hu in Hfst. simpl in Hfst. rewrite Hr in Hfst. subst r1.
  by eexists.
Qed.

(** When the call panics, so does the forwarding step, with nothing
    recorded and no error response written. *)
Lemma newJob_forward_panics jl header otp file name orig oh w res w' :
  upstream_result env file name = Panicked ->
  newJob_forward env jl header otp file name orig oh w = (res, w') ->
  res = Panicked /\ checksums w' = checksums w
  /\ http_errors (trace w') = http_errors (trace w).
Proof.
  intros Hr. unfold newJob_forward.
  destruct (uploadUpstream env file name w) as [r1 w1] eqn:Hu.
  pose proof (uploadUpstream_result env file name w) as Hfst.
  rewrite Hu in Hfst. simpl in Hfst. rewrite Hr in Hfst. subst r1.
  apply uploadUpstream_effect in Hu as (_ & _ & _ & Hc & _ & _ & _ & He).
  intros [= <- <-]. done.
Qed.

Lemma newJob_process_counter jl id header tp w res tp' w' :
  newJob_process env jl id header tp w = (res, tp', w') ->
  jobIdCounter w' = jobIdCounter w.
Proof.
  unfold newJob_process. intros H.
  destruct (Run env (SetLogger tp jl) (release_form w)) as [[rr tp2] w2] eqn:Hr.
  apply Run_unseen in Hr as (Hn & _). simpl in Hn.
  destruct rr as [[err|]|]; [by simplify_eq| |by simplify_eq].
  destruct (OriginalSize tp2 <=? ProcessedSize tp2).
  - destruct (CleanWorkDir env tp2 w2) as [[e tp3] w3] eqn:Hc.
    apply CleanWorkDir_housekeeping in Hc as (Hn3 & _).
    destruct (newJob_forward _ _ _ _ _ _ _ _ _) as [r4 w4] eqn:Hf.
    apply newJob_forward_effect in Hf as (_ & _ & Hn4 & _).
    simplify_eq. congruence.
  - destruct (SHA1 env (OriginalFile tp2)); [|by simplify_eq].
    destruct (CleanOriginalFile env tp2 w2) as [[e tp3] w3] eqn:Hc.
    apply CleanOriginalFile_housekeeping in Hc as (Hn3 & _).
    destruct (newJob_forward _ _ _ _ _ _ _ _ _) as [r4 w4] eqn:Hf.
    apply newJob_forward_effect in Hf as (_ & _ & Hn4 & _).
    simplify_eq. congruence.
Qed.

Lemma newJob_registered_counter jl id header w res w' :
  newJob_registered env config jl id header w = (res, w') ->
  jobIdCounter w' = jobIdCounter w.
Proof.
  unfold newJob_registered. intros H.
  destruct (NewTaskProcessorFromMultipart env config header w)
    as [[tp|e] w1] eqn:Hn;
    apply NewTaskProcessorFromMultipart_housekeeping in Hn as (Hn1 & _).
  - destruct (newJob_process env jl id header tp w1) as [[r3 tp3] w3] eqn:Hp.
    apply newJob_process_counter in Hp.
    destruct (Close env tp3 w3) as [[e4 tp4] w4] eqn:Hc.
    apply Close_housekeeping in Hc as (Hn4 & _).
    simplify_eq. congruence.
  - apply newJob_forward_effect in H as (_ & _ & Hn & _). congruence.
Qed.

(** With an upstream server that cannot be reached, the part of the job
    around the conversion never ends well, records nothing and writes no
    error response. *)
Lemma newJob_process_unreachable jl id header tp w res tp' w' :
  (forall file name, upstream_result env file name = Panicked) ->
  newJob_process env jl id header tp w = (res, tp', w') ->
  res <> Returned None /\ checksums w' = checksums w
  /\ http_errors (trace w') = http_errors (trace w).
Proof.
  intros Hun. unfold newJob_process. intros H.
  destruct (Run env (SetLogger tp jl) (release_form w)) as [[rr tp2] w2] eqn:Hr.
  apply Run_unseen in Hr as (_ & _ & Hc2 & _ & He2). simpl in Hc2, He2.
  destruct rr as [[err|]|]; [by simplify_eq| |by simplify_eq].
  destruct (OriginalSize tp2 <=? ProcessedSize tp2).
  - destruct (CleanWorkDir env tp2 w2) as [[e tp3] w3] eqn:Hc.
    apply CleanWorkDir_housekeeping in Hc as (_ & _ & Hc3 & _ & _ & _ & He3).
    destruct (newJob_forward _ _ _ _ _ _ _ _ _) as [r4 w4] eqn:Hf.
    apply newJob_forward_panics in Hf as (-> & Hc4 & He4); [|done].
    simplify_eq. repeat split; [done|congruence|congruence].
  - destruct (SHA1 env (OriginalFile tp2)); [|by simplify_eq].
    destruct (CleanOriginalFile env tp2 w2) as [[e tp3] w3] eqn:Hc.
    apply CleanOriginalFile_housekeeping in Hc
      as (_ & _ & Hc3 & _ & _ & _ & He3).
    destruct (newJob_forward _ _ _ _ _ _ _ _ _) as [r4 w4] eqn:Hf.
    apply newJob_forward_panics in Hf as (-> & Hc4 & He4); [|done].
    simplify_eq. repeat split; [done|congruence|congruence].
Qed.

(** [client.Do] failing without a response makes the call panic. *)
Lemma upstream_result_unreachable file name :
  http_NewRequest env = None ->
  (exists e c, client_Do env file name = DoFailed e true c) ->
  upstream_result env file name = Panicked.
Proof.
  intros Hn (e & c & Hd). unfold upstream_result, uploadUpstream.
  by rewrite Hn, Hd.
Qed.

End Paths.

(** ** Headers *)

Section Headers.

Implicit Types h : Header.

Lemma upper_char_idemp c : upper_char (upper_char c) = upper_char c.
Proof. destruct c as [[] [] [] [] [] [] [] []]; reflexivity. Qed.

Lemma lower_char_idemp c : lower_char (lower_char c) = lower_char c.
Proof. destruct c as [[] [] [] [] [] [] [] []]; reflexivity. Qed.

Lemma upper_char_valid c :
  validHeaderFieldByte (upper_char c) = validHeaderFieldByte c.
Proof. destruct c as [[] [] [] [] [] [] [] []]; reflexivity. Qed.

Lemma lower_char_valid c :
  validHeaderFieldByte (lower_char c) = validHeaderFieldByte c.
Proof. destruct c as [[] [] [] [] [] [] [] []]; reflexivity. Qed.

Lemma canonical_letters_idemp cs : forall upper,
  canonical_letters upper (canonical_letters upper cs)
  = canonical_letters upper cs.
Proof.
  induction cs as [|c cs IH]; intros upper; simpl; [done|].
  destruct upper; rewrite ?upper_char_idemp, ?lower_char_idemp, IH; done.
Qed.

Lemma canonical_letters_valid cs : forall upper,
  forallb validHeaderFieldByte (canonical_letters upper cs)
  = forallb validHeaderFieldByte cs.
Proof.
  induction cs as [|c cs IH]; intros upper; simpl; [done|].
  destruct upper; rewrite ?upper_char_valid, ?lower_char_valid, IH; done.
Qed.

(** A canonical key is its own canonical form. *)
Lemma CanonicalMIMEHeaderKey_idemp s :
  CanonicalMIMEHeaderKey (CanonicalMIMEHeaderKey s) = CanonicalMIMEHeaderKey s.
Proof.
  unfold CanonicalMIMEHeaderKey.
  destruct (forallb validHeaderFieldByte (chars s)) eqn:Hv; [|by rewrite Hv].
  rewrite String.list_ascii_of_string_of_list_ascii.
  by rewrite canonical_letters_valid, Hv, canonical_letters_idemp.
Qed.

(** Deleting for each of a list of keys takes out exactly the canonical
    forms of those keys. *)
Lemma foldr_Header_Del_lookup ks h k :
  foldr Header_Del h ks !! k
  = if decide (k ∈ map CanonicalMIMEHeaderKey ks) then None else h !! k.
Proof.
  induction ks as [|k0 ks IH]; simpl; [done|].
  unfold Header_Del at 1. rewrite lookup_delete, IH.
  destruct (decide (CanonicalMIMEHeaderKey k0 = k)) as [->|Hne].
  - by rewrite decide_True by apply list_elem_of_here.
  - destruct (decide (k ∈ map CanonicalMIMEHeaderKey ks)) as [Hin|Hnin].
    + by rewrite decide_True by (by apply list_elem_of_further).
    + rewrite decide_False; [done|].
      intros [?|?]%elem_of_cons; done.
Qed.

Lemma elem_of_keys h k : k ∈ map fst (map_to_list h) <-> is_Some (h !! k).
Proof.
  rewrite list_elem_of_In, in_map_iff. split.
  - intros ([k' v] & <- & Hin). apply list_elem_of_In in Hin.
    apply elem_of_map_to_list in Hin. by exists v.
  - intros [v Hv]. exists (k, v). split; [done|].
    by apply list_elem_of_In, elem_of_map_to_list.
Qed.

Lemma elem_of_canonical_keys (ks : list string) k :
  k ∈ map CanonicalMIMEHeaderKey ks
  <-> exists k', k' ∈ ks /\ CanonicalMIMEHeaderKey k' = k.
Proof.
  rewrite list_elem_of_In, in_map_iff. split.
  - intros (k' & <- & Hin). exists k'. by rewrite list_elem_of_In.
  - intros (k' & Hin & <-). exists k'. by rewrite <- list_elem_of_In.
Qed.

(** What [deleteAllHeaders] leaves: the keys that are not the canonical
    form of any key. *)
Lemma deleteAllHeaders_lookup h k :
  (forall k', is_Some (h !! k') -> CanonicalMIMEHeaderKey k' <> k) ->
  deleteAllHeaders h !! k = h !! k.
Proof.
  intros Hno. unfold deleteAllHeaders. rewrite foldr_Header_Del_lookup.
  case_decide as Hin; [|done]. exfalso.
  apply elem_of_canonical_keys in Hin as (k' & Hk' & Hc).
  apply elem_of_keys in Hk'. by eapply Hno.
Qed.

Lemma deleteAllHeaders_deleted h k k' :
  is_Some (h !! k') -> CanonicalMIMEHeaderKey k' = k ->
  deleteAllHeaders h !! k = None.
Proof.
  intros Hk' Hc. unfold deleteAllHeaders. rewrite foldr_Header_Del_lookup.
  rewrite decide_True; [done|].
  apply elem_of_canonical_keys. exists k'. by rewrite elem_of_keys.
Qed.

(** Copying [h2] over [h1] gives the entries of [h2], and those of [h1]
    under the keys [h2] does not have. *)
Lemma copyHeaders_lookup h1 h2 k :
  copyHeaders h1 h2 !! k = match h2 !! k with
                           | Some v => Some v
                           | None => h1 !! k
                           end.
Proof.
  unfold copyHeaders.
  assert (forall (l : list (string * list string)),
            NoDup (map fst l) ->
            foldr (fun kv acc => <[kv.1 := kv.2]> acc) h1 l !! k
            = match (list_to_map l : Header) !! k with
              | Some v => Some v
              | None => h1 !! k
              end) as Hl.
  { induction l as [|[k0 v0] l IH]; intros Hnd; simpl; [done|].
    rewrite !lookup_insert. case_decide; [done|].
    apply IH. by apply NoDup_cons in Hnd as [_ ?]. }
  rewrite Hl by apply NoDup_fst_map_to_list.
  by rewrite list_to_map_to_list.
Qed.

Lemma webSocketHeaders_canonical :
  Forall (fun v => CanonicalMIMEHeaderKey v = v) webSocketHeaders.
Proof. repeat constructor. Qed.

End Headers.

(** ** Request classification *)

Section Routes.

Lemma match_classes_length pattern : forall cs,
  match_classes pattern cs = true -> length cs = length pattern.
Proof.
  induction pattern as [|p pattern IH]; intros [|c cs] H; simpl in *;
    try done.
  apply andb_true_iff in H as [_ H]. by rewrite (IH cs H).
Qed.

(** A sequence of classes followed by another matches a string cut in
    two. *)
Lemma match_classes_app p1 : forall p2 cs,
  match_classes (p1 ++ p2) cs = true
  <-> exists c1 c2, cs = c1 ++ c2 /\ match_classes p1 c1 = true
                    /\ match_classes p2 c2 = true.
Proof.
  induction p1 as [|p p1 IH]; intros p2 cs; simpl.
  - split.
    + intros H. by exists [], cs.
    + intros ([|? ?] & c2 & -> & H1 & H2); done.
  - destruct cs as [|c cs].
    + split; [done|]. intros ([|? ?] & c2 & ? & H1 & H2); done.
    + rewrite andb_true_iff, IH. split.
      * intros (Hp & c1 & c2 & -> & H1 & H2).
        exists (c :: c1), c2. simpl. by rewrite Hp, H1.
      * intros ([|c' c1] & c2 & E & H1 & H2); simpl in *; [done|].
        apply andb_true_iff in H1 as [Hp H1]. simplify_eq.
        split; [done|]. by exists c1, c2.
Qed.

(** A literal matches itself and nothing else. *)
Lemma match_classes_literal s cs :
  match_classes (literal s) cs = true <-> cs = chars s.
Proof.
  unfold literal. generalize (chars s) as l. clear s. intros l. revert cs.
  induction l as [|x l IH]; intros [|c cs]; simpl; try done.
  rewrite andb_true_iff, bool_decide_eq_true, IH. split.
  - by intros [-> ->].
  - by intros [= -> ->].
Qed.

Lemma strings_HasPrefix_true s prefix :
  strings_HasPrefix s prefix = true ->
  exists rest, chars s = chars prefix ++ rest.
Proof.
  unfold strings_HasPrefix. rewrite bool_decide_eq_true. intros H.
  exists (drop (String.length prefix) (chars s)).
  rewrite <- H at 1. symmetry. apply take_drop.
Qed.

Lemma chars_of_chars_id s : of_chars (chars s) = s.
Proof. apply String.string_of_list_ascii_of_string. Qed.

Lemma chars_inj s1 s2 : chars s1 = chars s2 -> s1 = s2.
Proof.
  intros H. rewrite <- (chars_of_chars_id s1), <- (chars_of_chars_id s2).
  by rewrite H.
Qed.

(** A path matched between a literal and the identifier pattern. *)
Lemma match_classes_prefixed s pattern cs :
  match_classes (literal s ++ pattern) cs = true ->
  exists rest, cs = chars s ++ rest /\ match_classes pattern rest = true.
Proof.
  intros H. apply match_classes_app in H as (c1 & c2 & -> & H1 & H2).
  apply match_classes_literal in H1 as ->. by exists c2.
Qed.

(** Counting the classes of a request. *)
Lemma count_true_filter (bs : list bool) :
  length (filter (fun b => b = true) bs) = length (List.filter id bs).
Proof.
  induction bs as [|[] bs IH]; [done| |].
  - rewrite filter_cons_True by done. simpl. by rewrite IH.
  - rewrite filter_cons_False by done. done.
Qed.

End Routes.

(** ** The rewriter's substitution *)

(** C2 (as amended). For every input byte slice and every pair (old, new)
    such that the replacement is not empty, or the searched string does not
    occur in the input, [replaceAllBytes] returns (given as many rounds as
    the input has bytes, plus one) a slice of exactly the same length as its
    input; and when the replacement is longer than the match it returns the
    input unchanged. *)
Theorem replaceAllBytes_keeps_length (s old new : list byte) :
  new <> [] \/ ~ occurs old s ->
  exists out,
    (forall fuel, (length s < fuel)%nat ->
                  replaceAllBytes fuel s old new = Some out)
    /\ length out = length s
    /\ ((length old < length new)%nat -> out = s).
Proof.
  intros H. unfold replaceAllBytes.
  destruct (Z.of_nat (length new) >? Z.of_nat (length old)) eqn:Hc.
  { exists s. split; [done|split; done]. }
  rewrite Z.gtb_ltb in Hc. apply Z.ltb_ge in Hc.
  destruct (decide (new = [])) as [->|Hne].
  - destruct H as [H|H]; [done|]. exists s. split; [|split; [done|done]].
    intros [|fuel] Hf; [lia|]. simpl.
    replace (slice_from s 0) with s by (unfold slice_from; by rewrite drop_0).
    by rewrite (bytes_Index_absent _ _ H).
  - destruct (replaceAllBytes_loop_returns (S (length s)) s old new 0)
      as (out & Hout & Hl); try done; try lia.
    exists out. split; [|split; [done|lia]].
    intros fuel Hf. eapply replaceAllBytes_loop_fuel; [done|lia].
Qed.

Lemma replaceAllBytes_keeps_length_witness :
  ([Byte.x7a] <> [] \/ ~ occurs [Byte.x61; Byte.x62] [Byte.x61; Byte.x62; Byte.x63])
  /\ exists out,
       (forall fuel, (3 < fuel)%nat ->
          replaceAllBytes fuel [Byte.x61; Byte.x62; Byte.x63]
            [Byte.x61; Byte.x62] [Byte.x7a] = Some out)
       /\ length out = 3%nat
       /\ ((2 < 1)%nat -> out = [Byte.x61; Byte.x62; Byte.x63]).
Proof.
  split; [left; discriminate|].
  apply (replaceAllBytes_keeps_length [Byte.x61; Byte.x62; Byte.x63]
           [Byte.x61; Byte.x62] [Byte.x7a]).
  left; discriminate.
Defined.

(** C2, as stated, fails: with an empty replacement and a match in the
    input, no number of rounds brings the loop to its end. *)
Lemma replaceAllBytes_empty_replacement_never_returns :
  ~ exists fuel out,
      replaceAllBytes fuel [Byte.x61; Byte.x62] [Byte.x62] [] = Some out.
Proof.
  intros (fuel & out & H).
  rewrite replaceAllBytes_diverges in H; [done|].
  by exists [Byte.x61], [].
Qed.

(** C9. For every byte slice that contains zero occurrences of the searched
    string, [replaceAllBytes] returns the input byte-identical, at the first
    round of its loop. *)
Theorem replaceAllBytes_no_occurrence (s old new : list byte) (fuel : nat) :
  ~ occurs old s ->
  replaceAllBytes (S fuel) s old new = Some s.
Proof.
  intros H. unfold replaceAllBytes.
  destruct (Z.of_nat (length new) >? Z.of_nat (length old)); [done|]. simpl.
  replace (slice_from s 0) with s by (unfold slice_from; by rewrite drop_0).
  by rewrite (bytes_Index_absent _ _ H).
Qed.

Lemma replaceAllBytes_no_occurrence_witness :
  ~ occurs [Byte.x7a; Byte.x7a] [Byte.x61; Byte.x62; Byte.x63]
  /\ replaceAllBytes 1 [Byte.x61; Byte.x62; Byte.x63] [Byte.x7a; Byte.x7a]
       [Byte.x79; Byte.x79]
     = Some [Byte.x61; Byte.x62; Byte.x63].
Proof.
  assert (~ occurs [Byte.x7a; Byte.x7a] [Byte.x61; Byte.x62; Byte.x63]) as H.
  { intros Ho. apply bytes_Index_present in Ho. vm_compute in Ho. done. }
  split; [exact H|].
  exact (replaceAllBytes_no_occurrence [Byte.x61; Byte.x62; Byte.x63]
           [Byte.x7a; Byte.x7a] [Byte.x79; Byte.x79] 0 H).
Defined.

(** ** The job coordinator *)

Section JobClaims.

Variable env : Env.
Variable config : Config.

(** C1 (as amended). For every job whose conversion pipeline run succeeds:
    if the processed file's size is greater than or equal to the
    original's, the job forwards the original file under its original
    filename and records no hash mapping; if the processed size is strictly
    smaller and the original's hash is computed, the job forwards the
    processed file under its derived filename, and it records the pair
    (processedHash, originalHash) when the forwarding call returns and the
    processed file's hash is computed. *)
Theorem newJob_chooses_smaller r logger w header tp w1 tp2 w2 :
  FormFile r = Ok header ->
  jobs w !! jobKeyOf header = None ->
  NewTaskProcessorFromMultipart env config header (registered logger header w)
  = (Ok tp, w1) ->
  Run env (SetLogger tp (jobLoggerOf logger w)) (release_form w1)
  = (Returned None, tp2, w2) ->
  exists res w',
    newJob env config r logger w = (res, w')
    /\ (OriginalSize tp2 <= ProcessedSize tp2 ->
        uploads (trace w')
        = (OriginalFile tp2, Filename header) :: uploads (trace w)
        /\ checksums w' = checksums w)
    /\ (ProcessedSize tp2 < OriginalSize tp2 ->
        forall originalHash,
          SHA1 env (OriginalFile tp2) = Ok originalHash ->
          uploads (trace w')
          = (ProcessedFile tp2, ProcessedFilename tp2) :: uploads (trace w)
          /\ forall err processedHash,
               upstream_result env (ProcessedFile tp2) (ProcessedFilename tp2)
               = Returned err ->
               SHA1 env (ProcessedFile tp2) = Ok processedHash ->
               checksums w'
               = checksums w ++ [(processedHash, originalHash)]).
Proof.
  intros Hf Hk Hn Hr.
  rewrite (newJob_session env config r logger w header tp w1 Hf Hk Hn).
  destruct (before_choice env config _ _ _ _ _ _ _ _ _ Hn Hr) as (Hc & Hu & _).
  destruct (Z.le_gt_cases (OriginalSize tp2) (ProcessedSize tp2)) as [Hle|Hlt].
  - destruct (newJob_process_original env _ (jobIDOf w) header _ _ _ _ Hr Hle)
      as (res & tp3 & w3 & -> & Hu3 & Hc3).
    destruct (Close env tp3 w3) as [[e tp4] w4] eqn:Hcl.
    destruct (after_choice env (jobKeyOf header) _ _ _ _ _ Hcl)
      as (Hc4 & Hu4 & _).
    eexists _, _. split; [reflexivity|]. split; [|lia].
    intros _. split; congruence.
  - destruct (SHA1 env (OriginalFile tp2)) as [oh|e] eqn:Hs.
    + destruct (newJob_process_processed env _ (jobIDOf w) header _ _ _ _ _
                  Hr Hlt Hs) as (res & tp3 & w3 & -> & Hu3 & Hrec & _).
      destruct (Close env tp3 w3) as [[e tp4] w4] eqn:Hcl.
      destruct (after_choice env (jobKeyOf header) _ _ _ _ _ Hcl)
        as (Hc4 & Hu4 & _).
      eexists _, _. split; [reflexivity|]. split; [lia|].
      intros _ originalHash [= <-]. split; [congruence|].
      intros err ph Hup Hph.
      destruct (Hrec err ph Hup Hph) as (_ & Hc3 & _). congruence.
    + rewrite (newJob_process_unhashed env _ (jobIDOf w) header _ _ _ _ _
                 Hr Hlt Hs).
      destruct (Close env tp2 w2) as [[e' tp4] w4] eqn:Hcl.
      eexists _, _. split; [reflexivity|]. split; [lia|].
      intros _ originalHash [=].
Qed.

(** C5. For every job in which the conversion pipeline returns an error,
    the job ends with an error and nothing is uploaded upstream:
    [uploadUpstream] is not called, neither with the processed file nor with
    the original, and nothing is recorded. *)
Theorem newJob_failed_conversion_uploads_nothing
    r logger w header tp w1 err tp2 w2 :
  FormFile r = Ok header ->
  jobs w !! jobKeyOf header = None ->
  NewTaskProcessorFromMultipart env config header (registered logger header w)
  = (Ok tp, w1) ->
  Run env (SetLogger tp (jobLoggerOf logger w)) (release_form w1)
  = (Returned (Some err), tp2, w2) ->
  exists w',
    newJob env config r logger w
    = (Returned (Some ("failed to process file in job " +:+ Zs (jobIDOf w)
                       +:+ ": " +:+ err)), w')
    /\ uploads (trace w') = uploads (trace w)
    /\ checksums w' = checksums w.
Proof.
  intros Hf Hk Hn Hr.
  rewrite (newJob_session env config r logger w header tp w1 Hf Hk Hn).
  destruct (before_choice env config _ _ _ _ _ _ _ _ _ Hn Hr) as (Hc & Hu & _).
  rewrite (newJob_process_failed env _ (jobIDOf w) header _ _ _ _ _ Hr).
  destruct (Close env tp2 w2) as [[e tp4] w4] eqn:Hcl.
  destruct (after_choice env (jobKeyOf header) _ _ _ _ _ Hcl)
    as (Hc4 & Hu4 & _).
  eexists. split; [reflexivity|]. split; congruence.
Qed.

(** C7. For every upload whose extension matches no configured task, or
    whose declared size is below the matched task's minimum, the job (once
    its key is registered) is passthrough: no conversion pipeline is run,
    the original form file is forwarded upstream under its original
    filename, no hash mapping is recorded and no temporary file is made. *)
Theorem newJob_passthrough_unmatched r logger w header :
  FormFile r = Ok header ->
  jobs w !! jobKeyOf header = None ->
  findTask config
    (strings_ToLower (strings_TrimPrefix (path_Ext (Filename header)) "."))
  = None
  \/ (exists t,
        findTask config
          (strings_ToLower (strings_TrimPrefix (path_Ext (Filename header)) "."))
        = Some t
        /\ Size header < MinFilesizeBytes t) ->
  exists res w',
    newJob env config r logger w = (res, w')
    /\ acquired (trace w') = acquired (trace w)
    /\ commands (trace w') = commands (trace w)
    /\ uploads (trace w')
       = (Some MultipartFile, Filename header) :: uploads (trace w)
    /\ checksums w' = checksums w
    /\ fs w' = fs w.
Proof.
  intros Hf Hk Hm.
  destruct (NewTaskProcessorFromMultipart_unmatched env config header
              (registered logger header w) Hm) as [e Hn].
  rewrite (newJob_passthrough env config r logger w header e _ Hf Hk Hn).
  destruct (newJob_forward env (jobLoggerOf logger w) header None
              (Some MultipartFile) (Filename header) true ""
              (registered logger header w)) as [res w3] eqn:Hfw.
  pose proof (newJob_forward_original _ _ _ _ _ _ _ _ _ _ Hfw) as Hc.
  apply newJob_forward_effect in Hfw as (Hu & _ & _ & Hfs & Hcmd & Hacq).
  eexists _, _. split; [reflexivity|]. simpl in *. repeat split; congruence.
Qed.

(** C10 (as amended). For every job that chose the processed file, when
    [uploadUpstream] returns an error and the processed file's hash is
    computed, the job answers with a server error, still records the pair
    (processedHash, originalHash) in the checksum store, and ends without an
    error of its own. *)
Theorem newJob_records_after_failed_upload
    r logger w header tp w1 tp2 w2 originalHash processedHash err :
  FormFile r = Ok header ->
  jobs w !! jobKeyOf header = None ->
  NewTaskProcessorFromMultipart env config header (registered logger header w)
  = (Ok tp, w1) ->
  Run env (SetLogger tp (jobLoggerOf logger w)) (release_form w1)
  = (Returned None, tp2, w2) ->
  ProcessedSize tp2 < OriginalSize tp2 ->
  SHA1 env (OriginalFile tp2) = Ok originalHash ->
  upstream_result env (ProcessedFile tp2) (ProcessedFilename tp2)
  = Returned (Some err) ->
  SHA1 env (ProcessedFile tp2) = Ok processedHash ->
  exists w',
    newJob env config r logger w = (Returned None, w')
    /\ checksums w' = checksums w ++ [(processedHash, originalHash)]
    /\ http_errors (trace w')
       = ("failed to process file, view IUO logs for more info",
          StatusInternalServerError) :: http_errors (trace w).
Proof.
  intros Hf Hk Hn Hr Hlt Hs Hup Hph.
  rewrite (newJob_session env config r logger w header tp w1 Hf Hk Hn).
  destruct (before_choice env config _ _ _ _ _ _ _ _ _ Hn Hr) as (Hc & Hu & He).
  destruct (newJob_process_processed env _ (jobIDOf w) header _ _ _ _ _
              Hr Hlt Hs) as (res & tp3 & w3 & -> & Hu3 & Hrec & _).
  destruct (Hrec _ _ Hup Hph) as (-> & Hc3 & He3).
  destruct (Close env tp3 w3) as [[e tp4] w4] eqn:Hcl.
  destruct (after_choice env (jobKeyOf header) _ _ _ _ _ Hcl)
    as (Hc4 & Hu4 & He4 & _).
  eexists. split; [reflexivity|]. split; congruence.
Qed.

End JobClaims.

(** ** The job coordinator on the sample uploads *)

(** C1, as stated, fails: the conversion succeeds and shrinks the photo,
    the original cannot be hashed, and the job forwards nothing and records
    nothing. *)
Lemma newJob_unhashable_original_forwards_nothing :
  exists tp w1 tp2 w2 w',
    NewTaskProcessorFromMultipart env_unhashable sample_config photo
      (registered sample_logger photo World0) = (Ok tp, w1)
    /\ Run env_unhashable (SetLogger tp (jobLoggerOf sample_logger World0))
         (release_form w1) = (Returned None, tp2, w2)
    /\ ProcessedSize tp2 < OriginalSize tp2
    /\ newJob env_unhashable sample_config (request_of photo) sample_logger
         World0
       = (Returned (Some "sha1: read /tmp/upload-1.jpg: input/output error"),
          w')
    /\ uploads (trace w') = []
    /\ checksums w' = [].
Proof.
  destruct (NewTaskProcessorFromMultipart env_unhashable sample_config photo
              (registered sample_logger photo World0))
    as [[tp|e] w1] eqn:Hn; vm_compute in Hn; [|discriminate].
  injection Hn as Htp Hw1. exists tp, w1.
  destruct (Run env_unhashable
              (SetLogger tp (jobLoggerOf sample_logger World0))
              (release_form w1)) as [[res tp2] w2] eqn:Hr.
  rewrite <- Htp, <- Hw1 in Hr. vm_compute in Hr.
  injection Hr as Hres Htp2 Hw2. exists tp2, w2.
  destruct (newJob env_unhashable sample_config (request_of photo)
              sample_logger World0) as [rj w'] eqn:Hj.
  vm_compute in Hj. injection Hj as Hrj Hw'. exists w'.
  rewrite <- Hres, <- Htp2, <- Hrj, <- Hw'. repeat split.
Qed.

Lemma newJob_chooses_smaller_witness :
  exists tp w1 tp2 w2,
    NewTaskProcessorFromMultipart env_fine sample_config photo
      (registered sample_logger photo World0) = (Ok tp, w1)
    /\ Run env_fine (SetLogger tp (jobLoggerOf sample_logger World0))
         (release_form w1) = (Returned None, tp2, w2)
    /\ exists res w',
         newJob env_fine sample_config (request_of photo) sample_logger World0
         = (res, w')
         /\ (OriginalSize tp2 <= ProcessedSize tp2 ->
             uploads (trace w')
             = (OriginalFile tp2, Filename photo) :: uploads (trace World0)
             /\ checksums w' = checksums World0)
         /\ (ProcessedSize tp2 < OriginalSize tp2 ->
             forall originalHash,
               SHA1 env_fine (OriginalFile tp2) = Ok originalHash ->
               uploads (trace w')
               = (ProcessedFile tp2, ProcessedFilename tp2)
                 :: uploads (trace World0)
               /\ forall err processedHash,
                    upstream_result env_fine (ProcessedFile tp2)
                      (ProcessedFilename tp2) = Returned err ->
                    SHA1 env_fine (ProcessedFile tp2) = Ok processedHash ->
                    checksums w'
                    = checksums World0 ++ [(processedHash, originalHash)]).
Proof.
  do 4 eexists. split; [vm_compute; reflexivity|].
  split; [vm_compute; reflexivity|].
  eapply (newJob_chooses_smaller env_fine sample_config (request_of photo)
            sample_logger World0 photo);
    [reflexivity | reflexivity | vm_compute; reflexivity
    | vm_compute; reflexivity].
Defined.

Lemma newJob_failed_conversion_uploads_nothing_witness :
  exists w',
    newJob env_no_output sample_config (request_of photo) sample_logger World0
    = (Returned
         (Some ("failed to process file in job " +:+ Zs (jobIDOf World0)
                +:+ ": "
                +:+ "unexpected number of files in temp directory: 0")), w')
    /\ uploads (trace w') = uploads (trace World0)
    /\ checksums w' = checksums World0.
Proof.
  eapply (newJob_failed_conversion_uploads_nothing env_no_output sample_config
            (request_of photo) sample_logger World0 photo);
    [reflexivity | reflexivity | vm_compute; reflexivity
    | vm_compute; reflexivity].
Defined.

Lemma newJob_passthrough_unmatched_witness :
  exists res w',
    newJob env_fine sample_config (request_of clip) sample_logger World0
    = (res, w')
    /\ acquired (trace w') = acquired (trace World0)
    /\ commands (trace w') = commands (trace World0)
    /\ uploads (trace w')
       = (Some MultipartFile, Filename clip) :: uploads (trace World0)
    /\ checksums w' = checksums World0
    /\ fs w' = fs World0.
Proof.
  apply (newJob_passthrough_unmatched env_fine sample_config (request_of clip)
           sample_logger World0 clip); [reflexivity | reflexivity |].
  right. exists video_task. split; [vm_compute; reflexivity | reflexivity].
Defined.

(** C10, as stated, fails: the processed file was chosen, the forwarding
    call returns an error, the processed file cannot be hashed, and no pair
    is recorded. *)
Lemma newJob_unhashable_processed_records_nothing :
  exists tp w1 tp2 w2 w',
    NewTaskProcessorFromMultipart env_relay_fails_unhashed sample_config photo
      (registered sample_logger photo World0) = (Ok tp, w1)
    /\ Run env_relay_fails_unhashed
         (SetLogger tp (jobLoggerOf sample_logger World0)) (release_form w1)
       = (Returned None, tp2, w2)
    /\ ProcessedSize tp2 < OriginalSize tp2
    /\ upstream_result env_relay_fails_unhashed (ProcessedFile tp2)
         (ProcessedFilename tp2)
       = Returned
           (Some "unable to forward response to client: write: broken pipe")
    /\ newJob env_relay_fails_unhashed sample_config (request_of photo)
         sample_logger World0
       = (Returned
            (Some "new sha1: read /tmp/processing-1/upload-1.avif: input/output error"),
          w')
    /\ uploads (trace w')
       = [(Some (OsFile "/tmp/processing-1/upload-1.avif"), "photo.avif")]
    /\ checksums w' = [].
Proof.
  destruct (NewTaskProcessorFromMultipart env_relay_fails_unhashed
              sample_config photo (registered sample_logger photo World0))
    as [[tp|e] w1] eqn:Hn; vm_compute in Hn; [|discriminate].
  injection Hn as Htp Hw1. exists tp, w1.
  destruct (Run env_relay_fails_unhashed
              (SetLogger tp (jobLoggerOf sample_logger World0))
              (release_form w1)) as [[res tp2] w2] eqn:Hr.
  rewrite <- Htp, <- Hw1 in Hr. vm_compute in Hr.
  injection Hr as Hres Htp2 Hw2. exists tp2, w2.
  destruct (newJob env_relay_fails_unhashed sample_config (request_of photo)
              sample_logger World0) as [rj w'] eqn:Hj.
  vm_compute in Hj. injection Hj as Hrj Hw'. exists w'.
  rewrite <- Hres, <- Htp2, <- Hrj, <- Hw'.
  repeat split; vm_compute; reflexivity.
Qed.

Lemma newJob_records_after_failed_upload_witness :
  exists w',
    newJob env_relay_fails sample_config (request_of photo) sample_logger World0
    = (Returned None, w')
    /\ checksums w' = checksums World0 ++ [(hashB, hashA)]
    /\ http_errors (trace w')
       = ("failed to process file, view IUO logs for more info",
          StatusInternalServerError) :: http_errors (trace World0).
Proof.
  eapply (newJob_records_after_failed_upload env_relay_fails sample_config
            (request_of photo) sample_logger World0 photo);
    [reflexivity | reflexivity | vm_compute; reflexivity
    | vm_compute; reflexivity | vm_compute; reflexivity
    | vm_compute; reflexivity | vm_compute; reflexivity
    | vm_compute; reflexivity].
Defined.

(** ** The job table *)



(** ** The conversion pipeline *)

(** The extension of a file in a directory is the extension of its name. *)
Lemma ext_scan_stops_at_slash (l rest acc : list ascii) :
  "/"%char ∉ l ->
  ext_scan (l ++ "/"%char :: rest) acc = ext_scan l acc.
Proof.
  revert acc. induction l as [|c l IH]; intros acc Hn; simpl.
  - done.
  - apply not_elem_of_cons in Hn as [Hc Hl].
    rewrite (bool_decide_eq_false_2 (c = "/"%char)) by done.
    case_bool_decide; [done|]. by apply IH.
Qed.

Lemma path_Ext_Join dir name :
  "/"%char ∉ chars name -> path_Ext (path_Join dir name) = path_Ext name.
Proof.
  intros Hn. unfold path_Ext, path_Join. rewrite !chars_app. simpl.
  rewrite !rev_app_distr. simpl.
  rewrite <- app_assoc. simpl. rewrite ext_scan_stops_at_slash; [done|].
  intros Hin. apply Hn. apply list_elem_of_In, in_rev.
  by apply list_elem_of_In.
Qed.

(** C4 (as amended). For every run of the conversion pipeline in which the
    external command exits successfully: if the scratch output directory
    contains zero files or two or more files, [Run] returns an error; if it
    contains exactly one file, the directory can be listed and the file can
    be opened and its size read, [Run] succeeds, records that file, its
    actual size and its extension, and derives the client-facing filename by
    replacing the original filename's extension with the produced file's. *)
Theorem Run_exactly_one_output
    (env : Env) (config : Config) header w0 tp0 w1 l w
    dir cmdLine written output :
  NewTaskProcessorFromMultipart env config header w0 = (Ok tp0, w1) ->
  os_MkdirTemp env "processing-*" = Ok dir ->
  template_Execute env (CommandTemplate (tpTask tp0)) dir
    (OriginalFilename tp0) (tempOriginalFilePath tp0) = Ok cmdLine ->
  cmd_CombinedOutput env cmdLine = (written, output, None) ->
  (length written <> 1%nat ->
   exists tp' w',
     Run env (SetLogger tp0 l) w
     = (Returned
          (Some match os_ReadDir_err env dir with
                | Some err => "unable to read temp directory: " +:+ err
                | None =>
                    "unexpected number of files in temp directory: "
                    +:+ Zs (Z.of_nat (length written))
                end), tp', w')
     /\ fs w' !! dir = Some (TempDir written))
  /\ (forall file0 size,
        written = [file0] ->
        os_ReadDir_err env dir = None ->
        os_Open env (path_Join dir file0) = None ->
        os_Stat env (path_Join dir file0) = Ok size ->
        exists tp' w',
          Run env (SetLogger tp0 l) w = (Returned None, tp', w')
          /\ fs w' !! dir = Some (TempDir [file0])
          /\ ProcessedFile tp' = Some (OsFile (path_Join dir file0))
          /\ ProcessedSize tp' = size
          /\ ProcessedExtension tp' = path_Ext (path_Join dir file0)
          /\ exists stem,
               Filename header = stem +:+ path_Ext (Filename header)
               /\ ProcessedFilename tp' = stem +:+ ProcessedExtension tp').
Proof.
  intros Hn Hmk Ht Hcmd.
  apply NewTaskProcessorFromMultipart_Ok in Hn as (Hname & Hext & _).
  split.
  - intros Hlen. unfold Run, Run_locked, os_ReadDir. rewrite Hmk. simpl.
    rewrite Ht, Hcmd. simpl. rewrite lookup_insert_eq.
    destruct (os_ReadDir_err env dir) as [err|].
    + eexists _, _. split; [reflexivity|]. simpl. apply lookup_insert_eq.
    + apply Nat.eqb_neq in Hlen. rewrite Hlen. simpl.
      eexists _, _. split; [reflexivity|]. simpl. apply lookup_insert_eq.
  - intros file0 size -> Hrd Hop Hst.
    unfold Run, Run_locked, os_ReadDir. rewrite Hmk. simpl.
    rewrite Ht, Hcmd. simpl. rewrite lookup_insert_eq, Hrd. simpl.
    rewrite Hop, Hst. eexists _, _. split; [reflexivity|]. simpl.
    split; [apply lookup_insert_eq|]. repeat split.
    destruct (path_Ext_suffix (Filename header)) as [stem Hstem].
    exists stem. split; [done|].
    rewrite Hname, Hext. rewrite Hstem at 1.
    by rewrite strings_TrimSuffix_app.
Qed.

Lemma Run_exactly_one_output_witness :
  exists tp0 w1,
    NewTaskProcessorFromMultipart env_fine sample_config photo World0
    = (Ok tp0, w1)
    /\ ((length ["upload-1.avif"] <> 1%nat ->
         exists tp' w',
           Run env_fine (SetLogger tp0 sample_logger) w1
           = (Returned
                (Some match os_ReadDir_err env_fine "/tmp/processing-1" with
                      | Some err => "unable to read temp directory: " +:+ err
                      | None =>
                          "unexpected number of files in temp directory: "
                          +:+ Zs (Z.of_nat (length ["upload-1.avif"]))
                      end), tp', w')
           /\ fs w' !! "/tmp/processing-1" = Some (TempDir ["upload-1.avif"]))
        /\ (forall file0 size,
              ["upload-1.avif"] = [file0] ->
              os_ReadDir_err env_fine "/tmp/processing-1" = None ->
              os_Open env_fine (path_Join "/tmp/processing-1" file0) = None ->
              os_Stat env_fine (path_Join "/tmp/processing-1" file0) = Ok size ->
              exists tp' w',
                Run env_fine (SetLogger tp0 sample_logger) w1
                = (Returned None, tp', w')
                /\ fs w' !! "/tmp/processing-1" = Some (TempDir [file0])
                /\ ProcessedFile tp'
                   = Some (OsFile (path_Join "/tmp/processing-1" file0))
                /\ ProcessedSize tp' = size
                /\ ProcessedExtension tp'
                   = path_Ext (path_Join "/tmp/processing-1" file0)
                /\ exists stem,
                     Filename photo = stem +:+ path_Ext (Filename photo)
                     /\ ProcessedFilename tp'
                        = stem +:+ ProcessedExtension tp')).
Proof.
  do 2 eexists. split; [vm_compute; reflexivity|].
  eapply (Run_exactly_one_output env_fine sample_config photo World0 _ _
            sample_logger _ "/tmp/processing-1" _ ["upload-1.avif"] "");
    [vm_compute; reflexivity | reflexivity | reflexivity | reflexivity].
Defined.

(** C4, as stated, fails: the command exits successfully and leaves exactly
    one file, which cannot be opened, and [Run] returns an error. *)
Lemma Run_unopenable_output_fails :
  exists tp0 w1 tp' w',
    NewTaskProcessorFromMultipart env_unopenable sample_config photo World0
    = (Ok tp0, w1)
    /\ cmd_CombinedOutput env_unopenable
         "avifenc /tmp/upload-1.jpg /tmp/processing-1/upload-1.avif"
       = (["upload-1.avif"], "", None)
    /\ Run env_unopenable (SetLogger tp0 sample_logger) w1
       = (Returned (Some "unable to open temp file: permission denied"),
          tp', w')
    /\ commands (trace w')
       = ["avifenc /tmp/upload-1.jpg /tmp/processing-1/upload-1.avif"]
    /\ fs w' !! "/tmp/processing-1" = Some (TempDir ["upload-1.avif"]).
Proof.
  do 4 eexists. repeat split; vm_compute; reflexivity.
Qed.

(** ** Temporary resources and concurrent requests *)

(** C8, on the code: when the temporary file of a session is created and
    the copy of the upload into it fails, [NewTaskProcessorFromMultipart]
    returns without a session, no [Close] is ever deferred, the upload
    passes through, and the temporary file is still there when the job is
    over (all removals would have succeeded). *)
Theorem newJob_copy_failure_leaks_temp_file :
  tidy env_copy_fails
  /\ fs World0 !! "/tmp/upload-1.jpg" = None
  /\ exists w',
       newJob env_copy_fails sample_config (request_of photo) sample_logger
         World0 = (Returned None, w')
       /\ uploads (trace w') = [(Some MultipartFile, "photo.jpg")]
       /\ fs w' !! "/tmp/upload-1.jpg" = Some TempFile.
Proof.
  split; [|split; [reflexivity|]].
  - repeat split; try done; intros pat p [= <-]; done.
  - eexists. repeat split; vm_compute; reflexivity.
Qed.

(** C3, on the code: two requests with the same job key, each doing
    [jobs.Load] before either does [jobs.Store], both find the key free,
    both register and both are in flight; in the table the second
    registration has overwritten the first. *)
Theorem newJob_duplicate_check_races :
  pcs (run_schedule (two_requests heic heic) [0; 1; 0; 1]%nat)
  = [InFlight; InFlight]
  /\ sh_jobs (run_schedule (two_requests heic heic) [0; 1; 0; 1]%nat)
       !! jobKeyOf heic = Some 2.
Proof. repeat split; vm_compute; reflexivity. Qed.

(** When the first request registers before the second looks, the second
    is turned away, whatever the two uploads are called. *)
Lemma newJob_duplicate_check_in_turn h1 h2 :
  jobKeyOf h1 = jobKeyOf h2 ->
  pcs (run_schedule (two_requests h1 h2) [0; 0; 1]%nat)
  = [InFlight; Rejected 1].
Proof.
  intros Hk. unfold run_schedule, two_requests, sched_step, thread_step, pcs.
  simpl. rewrite lookup_empty. simpl. rewrite <- Hk, lookup_insert_eq.
  reflexivity.
Qed.

(** The race does not depend on the upload: any two requests with one key
    both register under the schedule load, load, store, store. *)
Lemma newJob_duplicate_check_races_any h1 h2 :
  jobKeyOf h1 = jobKeyOf h2 ->
  pcs (run_schedule (two_requests h1 h2) [0; 1; 0; 1]%nat)
  = [InFlight; InFlight].
Proof.
  intros Hk. unfold run_schedule, two_requests, sched_step, thread_step, pcs.
  simpl. rewrite !lookup_empty. reflexivity.
Qed.

(** ** Further properties of the rewriter's substitution *)

(** X1. For a non-empty replacement no longer than the searched string,
    [replaceAllBytes] returns the one-pass substitution of its input: [new]
    is written over the start of every occurrence of [old] found from left
    to right, the search going on right behind the bytes written, and
    every other byte is kept. *)
Theorem replaceAllBytes_substitutes (s old new : list byte) (fuel : nat) :
  new <> [] -> (length new <= length old)%nat -> (length s < fuel)%nat ->
  replaceAllBytes fuel s old new = Some (substitute s old new []).
Proof.
  intros Hne Hl Hf. unfold replaceAllBytes.
  replace (Z.of_nat (length new) >? Z.of_nat (length old)) with false
    by (symmetry; rewrite Z.gtb_ltb; apply Z.ltb_ge; lia).
  rewrite replaceAllBytes_loop_substitute; [done|done|done|lia|lia].
Qed.

Lemma replaceAllBytes_substitutes_witness :
  replaceAllBytes 6 [Byte.x61; Byte.x62; Byte.x61; Byte.x62; Byte.x63]
    [Byte.x61; Byte.x62] [Byte.x7a]
  = Some (substitute [Byte.x61; Byte.x62; Byte.x61; Byte.x62; Byte.x63]
            [Byte.x61; Byte.x62] [Byte.x7a] []).
Proof.
  apply (replaceAllBytes_substitutes
           [Byte.x61; Byte.x62; Byte.x61; Byte.x62; Byte.x63]
           [Byte.x61; Byte.x62] [Byte.x7a] 6);
    [discriminate | simpl; lia | simpl; lia].
Defined.

(** X2. [replaceAllBytes] returns exactly when the replacement is longer
    than the searched string (the refused case), or is not empty, or the
    searched string does not occur in the input. In the one case left, an
    empty replacement with an occurrence in the input, no number of rounds
    of the loop is enough. *)
Theorem replaceAllBytes_returns_iff (s old new : list byte) :
  (exists fuel out, replaceAllBytes fuel s old new = Some out)
  <-> ((length old < length new)%nat \/ new <> [] \/ ~ occurs old s).
Proof.
  split.
  - intros (fuel & out & H).
    destruct (decide (new = [])) as [->|Hne]; [|by right; left].
    right. right. intros Ho.
    by rewrite (replaceAllBytes_diverges fuel s old Ho) in H.
  - intros H. unfold replaceAllBytes.
    destruct (Z.of_nat (length new) >? Z.of_nat (length old)) eqn:Hc;
      [by exists 0%nat, s|].
    rewrite Z.gtb_ltb in Hc. apply Z.ltb_ge in Hc.
    destruct H as [H|[H|H]]; [lia| |].
    + destruct (replaceAllBytes_loop_returns (S (length s)) s old new 0)
        as (out & Hout & _); try done; try lia.
      by exists (S (length s)), out.
    + exists 1%nat, s. simpl.
      replace (slice_from s 0) with s by (unfold slice_from; by rewrite drop_0).
      by rewrite (bytes_Index_absent _ _ H).
Qed.

(** ** Properties of the header helpers *)

(** X15. [setHeaders(h1, h2)] replaces the headers: when every key of
    [h1] is in canonical form (as the keys net/http itself sets are), [h1]
    ends up with exactly the entries of [h2]. *)
Theorem setHeaders_replaces (h1 h2 : Header) :
  (forall k, is_Some (h1 !! k) -> CanonicalMIMEHeaderKey k = k) ->
  setHeaders h1 h2 = h2.
Proof.
  intros Hcanon. apply map_eq. intros k. unfold setHeaders.
  rewrite copyHeaders_lookup. destruct (h2 !! k) as [v|]; [done|].
  destruct (h1 !! k) as [v1|] eqn:H1.
  - eapply deleteAllHeaders_deleted; [by rewrite H1|].
    apply Hcanon. by rewrite H1.
  - unfold deleteAllHeaders. rewrite foldr_Header_Del_lookup.
    by case_decide.
Qed.

Lemma setHeaders_replaces_witness :
  setHeaders sample_header {[ "Content-Type" := ["application/json"] ]}
  = {[ "Content-Type" := ["application/json"] ]}.
Proof.
  apply (setHeaders_replaces sample_header
           {[ "Content-Type" := ["application/json"] ]}).
  assert (map_Forall (fun k _ => CanonicalMIMEHeaderKey k = k) sample_header)
    as H by (apply (bool_decide_unpack _); vm_compute; exact I).
  intros k [v Hv]. exact (H k v Hv).
Defined.

(** X16. What [setHeaders(h1, h2)] leaves under a key: the values of
    [h2] when [h2] has the key; nothing when the key is the canonical form
    of a key of [h1]; and otherwise what [h1] had, so a key of [h1] that
    is not in canonical form, and whose canonical form is not asked for,
    stays. *)
Theorem setHeaders_lookup (h1 h2 : Header) (k : string) :
  (is_Some (h2 !! k) -> setHeaders h1 h2 !! k = h2 !! k)
  /\ (h2 !! k = None ->
      (exists k', is_Some (h1 !! k') /\ CanonicalMIMEHeaderKey k' = k) ->
      setHeaders h1 h2 !! k = None)
  /\ (h2 !! k = None ->
      (forall k', is_Some (h1 !! k') -> CanonicalMIMEHeaderKey k' <> k) ->
      setHeaders h1 h2 !! k = h1 !! k).
Proof.
  unfold setHeaders. rewrite copyHeaders_lookup. repeat split.
  - by intros [v ->].
  - intros -> (k' & Hk' & Hc). by eapply deleteAllHeaders_deleted.
  - intros -> Hno. by apply deleteAllHeaders_lookup.
Qed.

(** X17. The result of the loop of [deleteAllHeaders] does not depend on
    the order in which the keys come, nor on keys being left out because
    an earlier round deleted them: any run over keys of the map that
    misses only keys which are the canonical form of a key it visits
    gives the same header. *)
Theorem deleteAllHeaders_any_order (h : Header) (ks : list string) :
  (forall k, k ∈ ks -> is_Some (h !! k)) ->
  (forall k, is_Some (h !! k) ->
             k ∈ ks \/ exists k', k' ∈ ks /\ CanonicalMIMEHeaderKey k' = k) ->
  foldr Header_Del h ks = deleteAllHeaders h.
Proof.
  intros Hsub Hcov. apply map_eq. intros k.
  unfold deleteAllHeaders. rewrite !foldr_Header_Del_lookup.
  destruct (decide (k ∈ map CanonicalMIMEHeaderKey ks)) as [Hin|Hnin].
  - rewrite decide_True; [done|].
    apply elem_of_canonical_keys in Hin as (k' & Hk' & Hc).
    apply elem_of_canonical_keys. exists k'. split; [|done].
    apply elem_of_keys. by apply Hsub.
  - case_decide as Hin; [|done]. exfalso. apply Hnin.
    apply elem_of_canonical_keys in Hin as (k' & Hk' & Hc).
    apply elem_of_keys in Hk'.
    destruct (Hcov k' Hk') as [Hks|(k'' & Hks & Hc')].
    + apply elem_of_canonical_keys. by exists k'.
    + apply elem_of_canonical_keys. exists k''. split; [done|].
      by rewrite <- Hc, <- Hc', CanonicalMIMEHeaderKey_idemp.
Qed.

Lemma deleteAllHeaders_any_order_witness :
  foldr Header_Del sample_header
    ["Cookie"; "Sec-Websocket-Key"; "Upgrade"; "Connection"]
  = deleteAllHeaders sample_header.
Proof.
  apply (deleteAllHeaders_any_order sample_header
           ["Cookie"; "Sec-Websocket-Key"; "Upgrade"; "Connection"]).
  - intros k Hk.
    repeat (apply elem_of_cons in Hk as [->|Hk]; [by eexists|]).
    by apply elem_of_nil in Hk.
  - assert (map_Forall
              (fun k _ => k ∈ ["Cookie"; "Sec-Websocket-Key"; "Upgrade";
                               "Connection"]) sample_header)
      as H by (apply (bool_decide_unpack _); vm_compute; exact I).
    intros k [v Hv]. left. exact (H k v Hv).
Defined.

(** X18. [webSocketSafeHeader] gives a header without the six websocket
    handshake keys and with every other key as it was. *)
Theorem webSocketSafeHeader_lookup (header : Header) (k : string) :
  webSocketSafeHeader header !! k
  = if decide (k ∈ webSocketHeaders) then None else header !! k.
Proof.
  pose proof webSocketHeaders_canonical as Hc.
  unfold webSocketSafeHeader. revert header Hc.
  generalize webSocketHeaders as vs.
  induction vs as [|v vs IH]; intros header Hc; cbn [foldl].
  - by rewrite decide_False by apply not_elem_of_nil.
  - apply Forall_cons in Hc as [Hv Hvs]. rewrite IH by done.
    unfold Header_Del. rewrite Hv, lookup_delete.
    destruct (decide (v = k)) as [->|Hne].
    + rewrite (decide_True (P := k ∈ k :: vs)) by apply list_elem_of_here.
      by case_decide.
    + destruct (decide (k ∈ vs)) as [Hin|Hnin].
      * by rewrite decide_True by (by apply list_elem_of_further).
      * rewrite decide_False; [done|]. intros [?|?]%elem_of_cons; done.
Qed.

(** ** Properties of the request classification and of the dispatch *)

(** X19. The seven classifiers of [helpers.go] exclude one another: no
    request is of two classes. *)
Theorem classifiers_exclusive (r : HttpRequest) :
  (length (filter (fun b => b = true) (classifiers r)) <= 1)%nat.
Proof.
  rewrite count_true_filter.
  unfold classifiers, isAssetsUpload, isStreamSync, isFullSync, isDeltaSync,
    isAlbum, isBucket, isAssetView.
  destruct (bool_decide (Method r = "POST")) eqn:Hpost;
    destruct (bool_decide (Method r = "GET")) eqn:Hget;
    cbn [andb List.filter id length].
  - apply bool_decide_eq_true in Hpost, Hget. congruence.
  - destruct (strings_HasPrefix (ContentType r) "multipart/form-data");
      repeat case_bool_decide; cbn [andb List.filter id length];
      try lia; congruence.
  - destruct (match_classes (literal "/api/albums/" ++ uuid_pattern)
                (chars (URL_Path r))) eqn:Halbum;
      destruct (strings_HasPrefix (URL_Path r) "/api/timeline/bucket")
        eqn:Hbucket;
      destruct (match_classes (literal "/api/assets/" ++ uuid_pattern)
                  (chars (URL_Path r))) eqn:Hview;
      cbn [andb List.filter id length]; try lia; exfalso;
      try (apply match_classes_prefixed in Halbum as (r1 & E1 & _));
      try (apply strings_HasPrefix_true in Hbucket as (r2 & E2));
      try (apply match_classes_prefixed in Hview as (r3 & E3 & _));
      try (rewrite E1 in *); try (rewrite E2 in *);
      simpl in *; congruence.
  - lia.
Qed.

(** X20. When [isOriginalDownloadPath] accepts a request, the URL is
    exactly [/api/assets/<id>/original] with nothing before or behind it,
    the identifier it captures is that [<id>], and the path
    [/api/assets/<id>] that [downloadAndConvertImage] builds from it to ask
    for the asset is one [isAssetView] accepts. *)
Theorem isOriginalDownloadPath_capture (r : HttpRequest) :
  fst (isOriginalDownloadPath r) = true ->
  Method r = "GET"
  /\ exists id,
       snd (isOriginalDownloadPath r) = [URL_String r; id]
       /\ URL_String r = "/api/assets/" +:+ id +:+ "/original"
       /\ String.length id = 36%nat
       /\ isAssetView {| Method := "GET"; URL_Path := "/api/assets/" +:+ id;
                         URL_String := "/api/assets/" +:+ id;
                         Upgrade := Upgrade r;
                         ContentType := ContentType r |} = true.
Proof.
  unfold isOriginalDownloadPath, originalDownload_matches.
  cbn [fst snd].
  destruct (match_classes
              (literal "/api/assets/" ++ uuid_pattern ++ literal "/original")
              (chars (URL_String r))) eqn:Hm.
  2: { cbn [length Nat.eqb]. rewrite andb_false_r. discriminate. }
  cbn [length Nat.eqb]. rewrite andb_true_r, bool_decide_eq_true.
  intros Hget. split; [done|].
  apply match_classes_prefixed in Hm as (rest & E & Hm).
  apply match_classes_app in Hm as (id & tail & -> & Hid & Htail).
  apply match_classes_literal in Htail as ->.
  pose proof (match_classes_length _ _ Hid) as Hlen.
  exists (of_chars id). rewrite E.
  assert (drop 12 (chars "/api/assets/" ++ id ++ chars "/original")
          = id ++ chars "/original") as -> by reflexivity.
  rewrite take_app_length' by done.
  split; [done|]. split; [|split].
  - apply chars_inj. rewrite E, !chars_app.
    by rewrite String.list_ascii_of_string_of_list_ascii.
  - by rewrite <- length_chars, String.list_ascii_of_string_of_list_ascii.
  - unfold isAssetView. cbn [Method URL_Path]. rewrite chars_app.
    rewrite String.list_ascii_of_string_of_list_ascii.
    rewrite bool_decide_eq_true_2 by done. cbn [andb].
    apply match_classes_app. eexists _, id. split; [done|].
    split; [by apply match_classes_literal|done].
Qed.

Lemma isOriginalDownloadPath_capture_witness :
  Method download_request = "GET"
  /\ exists id,
       snd (isOriginalDownloadPath download_request)
       = [URL_String download_request; id]
       /\ URL_String download_request = "/api/assets/" +:+ id +:+ "/original"
       /\ String.length id = 36%nat
       /\ isAssetView {| Method := "GET"; URL_Path := "/api/assets/" +:+ id;
                         URL_String := "/api/assets/" +:+ id;
                         Upgrade := Upgrade download_request;
                         ContentType := ContentType download_request |}
          = true.
Proof.
  apply (isOriginalDownloadPath_capture download_request).
  vm_compute. reflexivity.
Defined.



(** ** Further properties of the upload session *)

Section SessionExtras.

Variable env : Env.
Variable config : Config.

(** X3. [NewTaskProcessorFromMultipart] hands out a session exactly when
    the extension of the file name is valid, some task lists the lowered
    extension, the declared size is not below the minimum of the first such
    task, the temporary file is created and the upload is copied into it. *)
Theorem NewTaskProcessorFromMultipart_Ok_iff header w :
  (exists tp w1,
     NewTaskProcessorFromMultipart env config header w = (Ok tp, w1))
  <-> (isValidFilename (path_Ext (Filename header)) = true
       /\ (exists task,
             findTask config
               (strings_ToLower
                  (strings_TrimPrefix (path_Ext (Filename header)) "."))
             = Some task
             /\ MinFilesizeBytes task <= Size header)
       /\ (exists name,
             os_CreateTemp env ("upload-*" +:+ path_Ext (Filename header))
             = Ok name)
       /\ io_Copy_upload env = None).
Proof.
  unfold NewTaskProcessorFromMultipart. split.
  - intros (tp & w1 & H). repeat case_match; simplify_eq.
    split; [by destruct (isValidFilename _)|].
    split; [eexists; split; [done|lia]|]. split; [by eexists|done].
  - intros (Hv & (task & Ht & Hmin) & (name & Hc) & Hcp).
    rewrite Hv, Ht, Hc, Hcp. simpl.
    replace (Size header <? MinFilesizeBytes task) with false
      by (symmetry; apply Z.ltb_ge; lia).
    by eexists _, _.
Qed.

(** The scan of [path.Ext] finds nothing where there is no dot. *)
Lemma ext_scan_no_dot r : forall acc, "."%char ∉ r -> ext_scan r acc = [].
Proof.
  induction r as [|c r IH]; intros acc Hn; simpl; [done|].
  apply not_elem_of_cons in Hn as [Hc Hr].
  case_bool_decide; [done|].
  rewrite (bool_decide_eq_false_2 (c = "."%char)) by done. by apply IH.
Qed.

(** X4. An upload whose file name has no dot gets no session: its
    extension is empty, which [isValidFilename] refuses, and nothing is
    created for it. *)
Theorem NewTaskProcessorFromMultipart_no_extension header w :
  "."%char ∉ chars (Filename header) ->
  NewTaskProcessorFromMultipart env config header w
  = (Err "invalid file extension: ", w).
Proof.
  intros Hn. unfold NewTaskProcessorFromMultipart.
  assert (path_Ext (Filename header) = "") as ->; [|done].
  unfold path_Ext. rewrite ext_scan_no_dot; [done|].
  intros Hin. apply Hn. apply list_elem_of_In, in_rev.
  by apply list_elem_of_In.
Qed.

(** X5. [Close] can be called again: after a first call the session has
    nothing on record, whether or not the removals succeeded, and a second
    call returns nil and changes nothing. *)
Theorem Close_twice tp w err tp' w' :
  Close env tp w = (err, tp', w') ->
  OriginalFile tp' = None /\ tempOriginalFilePath tp' = ""
  /\ tempWorkDir tp' = ""
  /\ Close env tp' w' = (None, tp', w').
Proof.
  unfold Close, CleanOriginalFile, CleanWorkDir. intros H.
  repeat case_match; simplify_eq; simpl in *; simplify_eq;
    repeat split; try done;
    repeat (case_bool_decide; simpl in *; try done).
Qed.

(** X6. [Run] takes one slot of the semaphore of the session's class when
    it starts and gives the same slot back as the last thing it does,
    however it ends; in between no slot is taken or given back and at most
    one external command is run. *)
Theorem Run_holds_one_slot tp w res tp' w' :
  Run env tp w = (res, tp', w') ->
  exists mid,
    trace w' = EvRelease (poolOf tp) :: mid ++ EvAcquire (poolOf tp) :: trace w
    /\ slots mid = []
    /\ (length (commands mid) <= 1)%nat.
Proof.
  unfold Run, Run_locked, os_ReadDir, poolOf. intros H.
  repeat case_match; simplify_eq; unfold logf; repeat case_match; simpl;
    lazymatch goal with
    | |- exists mid, _ :: ?a :: ?b :: EvAcquire _ :: _ = _ /\ _ =>
        exists [a; b]
    | |- exists mid, _ :: ?a :: EvAcquire _ :: _ = _ /\ _ => exists [a]
    | |- exists mid, _ :: EvAcquire _ :: _ = _ /\ _ => exists []
    end; simpl; repeat split; lia.
Qed.

(** X7. [Run] runs the command line rendered from the task's template,
    once, when the work directory was made and the template rendered; in
    every other case it runs no command at all. *)
Theorem Run_runs_rendered_command tp w res tp' w' :
  Run env tp w = (res, tp', w') ->
  commands (trace w')
  = match os_MkdirTemp env "processing-*" with
    | Ok dir =>
        match template_Execute env (CommandTemplate (tpTask tp)) dir
                (OriginalFilename tp) (tempOriginalFilePath tp) with
        | Ok cmdLine => cmdLine :: commands (trace w)
        | Err _ => commands (trace w)
        end
    | Err _ => commands (trace w)
    end.
Proof.
  unfold Run, Run_locked, os_ReadDir. intros H.
  destruct (os_MkdirTemp env "processing-*") as [dir|e]; simpl in H;
    [|by simplify_eq].
  destruct (template_Execute env _ dir _ _) as [cmdLine|e]; simpl in H;
    [|by simplify_eq].
  repeat case_match; simplify_eq; unfold logf; repeat case_match; done.
Qed.

(** X8. [Run] panics in one case only: the command exited successfully,
    the result folder holds exactly one file, the file was opened, and
    [os.Stat] on it failed. *)
Theorem Run_panics_iff tp w :
  (exists tp' w', Run env tp w = (Panicked, tp', w'))
  <-> exists dir cmdLine file0 output e,
        os_MkdirTemp env "processing-*" = Ok dir
        /\ template_Execute env (CommandTemplate (tpTask tp)) dir
             (OriginalFilename tp) (tempOriginalFilePath tp) = Ok cmdLine
        /\ cmd_CombinedOutput env cmdLine = ([file0], output, None)
        /\ os_ReadDir_err env dir = None
        /\ os_Open env (path_Join dir file0) = None
        /\ os_Stat env (path_Join dir file0) = Err e.
Proof.
  unfold Run, Run_locked, os_ReadDir. split.
  - intros (tp' & w' & H).
    repeat case_match; simplify_eq; simpl in *;
      rewrite ?lookup_insert_eq in *; simplify_eq.
    all: try (exfalso; simpl in *; congruence).
    all: try match goal with
         | H : negb (length ?l =? _)%nat = false |- _ =>
             destruct l; simpl in H; try done
         end.
    all: eexists _, _, _, _, _; repeat split; try done.
  - intros (dir & cmdLine & file0 & output & e & Hm & Ht & Hc & Hr & Ho & Hs).
    rewrite Hm. simpl. rewrite Ht, Hc. simpl.
    rewrite lookup_insert_eq, Hr. simpl. rewrite Ho, Hs. by eexists _, _.
Qed.

End SessionExtras.

(** ** Further properties of the job coordinator *)

Section JobExtras.

Variable env : Env.
Variable config : Config.

(** X9. Whatever keeps [NewTaskProcessorFromMultipart] from handing out a
    session (also a temporary file that cannot be created or written), the
    error is dropped and the job passes the upload through: the form file is
    forwarded under its own name, no slot is taken, no command is run,
    nothing is recorded, and the job ends without an error whenever the
    forwarding call returns, even when it returns an error. *)
Theorem newJob_creation_failure_passes_through r logger w header e w1 :
  FormFile r = Ok header ->
  jobs w !! jobKeyOf header = None ->
  NewTaskProcessorFromMultipart env config header (registered logger header w)
  = (Err e, w1) ->
  exists res w',
    newJob env config r logger w = (res, w')
    /\ uploads (trace w')
       = (Some MultipartFile, Filename header) :: uploads (trace w)
    /\ acquired (trace w') = acquired (trace w)
    /\ commands (trace w') = commands (trace w)
    /\ checksums w' = checksums w
    /\ (forall err,
          upstream_result env (Some MultipartFile) (Filename header)
          = Returned err ->
          res = Returned None).
Proof.
  intros Hf Hk Hn.
  rewrite (newJob_passthrough env config r logger w header e _ Hf Hk Hn).
  apply NewTaskProcessorFromMultipart_housekeeping in Hn
    as (_ & _ & Hc1 & Hu1 & Hm1 & Ha1 & _).
  destruct (newJob_forward env (jobLoggerOf logger w) header None
              (Some MultipartFile) (Filename header) true "" w1)
    as [res w3] eqn:Hfw.
  pose proof (newJob_forward_original _ _ _ _ _ _ _ _ _ _ Hfw) as Hc.
  pose proof Hfw as Hfw'.
  apply newJob_forward_effect in Hfw' as (Hu & _ & _ & _ & Hcmd & Hacq).
  eexists _, _. split; [reflexivity|]. simpl in *.
  repeat split; try congruence.
  intros err Hr.
  destruct (newJob_forward_original_result env (jobLoggerOf logger w) header
              None _ _ "" w1 err Hr) as [w5 H5].
  congruence.
Qed.

(** X10. When the conversion of a job does not succeed, by an error or by
    a panic, the job ends the same way and its deferred calls still run:
    the key is out of the job table again, nothing was forwarded or
    recorded, and the job has written nothing to the client, neither an
    error response nor a relayed one. *)
Theorem newJob_unfinished_conversion r logger w header tp w1 rr tp2 w2 :
  FormFile r = Ok header ->
  jobs w !! jobKeyOf header = None ->
  NewTaskProcessorFromMultipart env config header (registered logger header w)
  = (Ok tp, w1) ->
  Run env (SetLogger tp (jobLoggerOf logger w)) (release_form w1)
  = (rr, tp2, w2) ->
  rr <> Returned None ->
  exists w',
    newJob env config r logger w
    = (match rr with
       | Returned (Some err) =>
           Returned (Some ("failed to process file in job "
                           +:+ Zs (jobIDOf w) +:+ ": " +:+ err))
       | _ => Panicked
       end, w')
    /\ responses (trace w') = responses (trace w)
    /\ uploads (trace w') = uploads (trace w)
    /\ checksums w' = checksums w
    /\ jobs w' = jobs w.
Proof.
  intros Hf Hk Hn Hr Hne.
  rewrite (newJob_session env config r logger w header tp w1 Hf Hk Hn).
  destruct (before_choice env config _ _ _ _ _ _ _ _ _ Hn Hr) as (Hc & Hu & _).
  pose proof (NewTaskProcessorFromMultipart_trace _ _ _ _ _ _ Hn) as Ht1.
  pose proof (Run_responses _ _ _ _ _ _ Hr) as Hresp.
  pose proof (Run_unseen _ _ _ _ _ _ Hr) as (_ & Hj2 & _).
  apply NewTaskProcessorFromMultipart_housekeeping in Hn as (_ & Hj1 & _).
  assert (newJob_process env (jobLoggerOf logger w) (jobIDOf w) header tp w1
          = (match rr with
             | Returned (Some err) =>
                 Returned (Some ("failed to process file in job "
                                 +:+ Zs (jobIDOf w) +:+ ": " +:+ err))
             | _ => Panicked
             end, tp2, w2)) as ->.
  { unfold newJob_process. rewrite Hr. by destruct rr as [[?|]|]. }
  destruct (Close env tp2 w2) as [[e tp4] w4] eqn:Hcl.
  pose proof (Close_responses _ _ _ _ _ _ Hcl) as Hresp4.
  destruct (after_choice env (jobKeyOf header) _ _ _ _ _ Hcl)
    as (Hc4 & Hu4 & _ & _ & _ & Hj4).
  eexists. split; [reflexivity|]. simpl in *.
  rewrite Ht1 in Hresp. simpl in Hresp.
  repeat split; try congruence.
  rewrite Hj4, Hj2, Hj1. simpl. by apply delete_insert_id.
Qed.

(** X11. When the upstream server cannot be reached ([client.Do] fails
    and gives no response), no job ends well: [newJob] panics at the
    forwarding call or has failed before it; no error response is written,
    nothing is recorded, and the key is out of the job table again. *)
Theorem newJob_unreachable_upstream r logger w header :
  FormFile r = Ok header ->
  jobs w !! jobKeyOf header = None ->
  http_NewRequest env = None ->
  (forall file name, exists e c, client_Do env file name = DoFailed e true c) ->
  exists res w',
    newJob env config r logger w = (res, w')
    /\ res <> Returned None
    /\ checksums w' = checksums w
    /\ http_errors (trace w') = http_errors (trace w)
    /\ jobs w' = jobs w.
Proof.
  intros Hf Hk Hnr Hdo.
  assert (forall file name, upstream_result env file name = Panicked) as Hun
    by (intros; by apply upstream_result_unreachable).
  rewrite (newJob_unfold env config r logger w header Hf Hk).
  destruct (newJob_registered env config (jobLoggerOf logger w) (jobIDOf w)
              header (registered logger header w)) as [res w1] eqn:Hb.
  pose proof (newJob_registered_table _ _ _ _ _ _ _ _ Hb) as Hj.
  exists res. eexists. split; [reflexivity|]. simpl.
  assert (res <> Returned None
          /\ checksums w1 = checksums w
          /\ http_errors (trace w1) = http_errors (trace w)) as (? & ? & ?).
  { unfold newJob_registered in Hb.
    destruct (NewTaskProcessorFromMultipart env config header
                (registered logger header w)) as [[tp|e] w0] eqn:Hn;
      apply NewTaskProcessorFromMultipart_housekeeping in Hn
        as (_ & _ & Hc0 & _ & _ & _ & He0); simpl in Hc0, He0.
    - destruct (newJob_process _ _ _ _ _ _) as [[r3 tp3] w3] eqn:Hp.
      apply newJob_process_unreachable in Hp as (Hr3 & Hc3 & He3); [|done].
      destruct (Close env tp3 w3) as [[e4 tp4] w4] eqn:Hc.
      apply Close_housekeeping in Hc as (_ & _ & Hc4 & _ & _ & _ & He4).
      simplify_eq. repeat split; [done|congruence|congruence].
    - apply newJob_forward_panics in Hb as (-> & Hc3 & He3); [|done].
      repeat split; [done|congruence|congruence]. }
  repeat split; try done.
  rewrite Hj. simpl. by apply delete_insert_id.
Qed.

(** X12. Every call of [newJob] takes exactly one job identifier, whether
    the request had no form file, was turned away as a duplicate, passed
    through, was converted, failed or panicked. *)
Theorem newJob_takes_one_id r logger w res w' :
  newJob env config r logger w = (res, w') ->
  jobIdCounter w' = jobIdCounter w + 1.
Proof.
  unfold newJob, newJob_dedup. intros H.
  destruct (FormFile r) as [header|e]; [|by simplify_eq].
  simpl in H. destruct (jobs w !! jobKeyOf header); [by simplify_eq|].
  destruct (newJob_registered _ _ _ _ _ _) as [r1 w1] eqn:Hb.
  apply newJob_registered_counter in Hb. simplify_eq. simpl. by rewrite Hb.
Qed.

(** X13. The copy that is not forwarded is released before the forwarding
    starts: when the original is forwarded the work directory (with the
    processed file) is already removed, and when the processed file is
    forwarded the temporary file of the original is already closed and
    removed, in both cases when the removal succeeds. *)
Theorem newJob_process_releases_before_forwarding
    jl id header tp w1 tp2 w2 :
  Run env (SetLogger tp jl) (release_form w1) = (Returned None, tp2, w2) ->
  (OriginalSize tp2 <= ProcessedSize tp2 ->
   os_RemoveAll env (tempWorkDir tp2) = None ->
   exists e tp3 w3,
     CleanWorkDir env tp2 w2 = (e, tp3, w3)
     /\ (tempWorkDir tp2 <> "" -> fs w3 !! tempWorkDir tp2 = None)
     /\ newJob_process env jl id header tp w1
        = (let '(res, w4) :=
             newJob_forward env jl header (Some tp3) (OriginalFile tp2)
               (Filename header) true "" w3 in
           (res, tp3, w4)))
  /\ (ProcessedSize tp2 < OriginalSize tp2 ->
      forall originalHash,
        SHA1 env (OriginalFile tp2) = Ok originalHash ->
        os_Remove env (tempOriginalFilePath tp2) = None ->
        exists e tp3 w3,
          CleanOriginalFile env tp2 w2 = (e, tp3, w3)
          /\ OriginalFile tp3 = None
          /\ (tempOriginalFilePath tp2 <> "" ->
              fs w3 !! tempOriginalFilePath tp2 = None)
          /\ newJob_process env jl id header tp w1
             = (let '(res, w4) :=
                  newJob_forward env jl header (Some tp3) (ProcessedFile tp2)
                    (ProcessedFilename tp2) false originalHash w3 in
                (res, tp3, w4))).
Proof.
  intros Hr. split.
  - intros Hle Hrm. unfold newJob_process. rewrite Hr.
    apply Z.leb_le in Hle. rewrite Hle.
    destruct (CleanWorkDir env tp2 w2) as [[e tp3] w3] eqn:Hc.
    exists e, tp3, w3. split; [done|]. split.
    + intros Hne. unfold CleanWorkDir in Hc.
      rewrite bool_decide_eq_false_2 in Hc by done. rewrite Hrm in Hc.
      simplify_eq. simpl. apply lookup_delete_eq.
    + by destruct (newJob_forward _ _ _ _ _ _ _ _ _).
  - intros Hlt oh Hs Hrm. unfold newJob_process. rewrite Hr.
    replace (OriginalSize tp2 <=? ProcessedSize tp2) with false
      by (symmetry; apply Z.leb_gt; lia).
    rewrite Hs.
    destruct (CleanOriginalFile env tp2 w2) as [[e tp3] w3] eqn:Hc.
    exists e, tp3, w3. split; [done|].
    split; [|split].
    + unfold CleanOriginalFile in Hc. repeat case_match; simplify_eq; done.
    + intros Hne. unfold CleanOriginalFile in Hc.
      destruct (OriginalFile tp2);
        rewrite bool_decide_eq_true_2 in Hc by done; simpl in Hc;
        rewrite Hrm in Hc; simplify_eq; simpl;
        rewrite ?fs_log_failure; simpl; rewrite ?fs_log_failure;
        apply lookup_delete_eq.
    + by destruct (newJob_forward _ _ _ _ _ _ _ _ _).
Qed.

End JobExtras.

(** ** The further properties on the sample uploads *)

Lemma NewTaskProcessorFromMultipart_no_extension_witness :
  ("."%char ∉ chars (Filename readme))
  /\ NewTaskProcessorFromMultipart env_fine sample_config readme World0
     = (Err "invalid file extension: ", World0).
Proof.
  assert ("."%char ∉ chars (Filename readme)) as H
    by (apply (bool_decide_eq_false_1 _); vm_compute; reflexivity).
  split; [exact H|].
  exact (NewTaskProcessorFromMultipart_no_extension env_fine sample_config
           readme World0 H).
Defined.

Lemma Close_twice_witness :
  exists err tp' w',
    Close env_fine sample_session World0 = (err, tp', w')
    /\ OriginalFile tp' = None /\ tempOriginalFilePath tp' = ""
    /\ tempWorkDir tp' = ""
    /\ Close env_fine tp' w' = (None, tp', w').
Proof.
  destruct (Close env_fine sample_session World0) as [[err tp'] w'] eqn:H.
  exists err, tp', w'. split; [reflexivity|].
  exact (Close_twice env_fine sample_session World0 err tp' w' H).
Defined.

Lemma Run_holds_one_slot_witness :
  exists res tp' w',
    Run env_fine sample_session World0 = (res, tp', w')
    /\ exists mid,
         trace w'
         = EvRelease (poolOf sample_session)
           :: mid ++ EvAcquire (poolOf sample_session) :: trace World0
         /\ slots mid = []
         /\ (length (commands mid) <= 1)%nat.
Proof.
  destruct (Run env_fine sample_session World0) as [[res tp'] w'] eqn:H.
  exists res, tp', w'. split; [reflexivity|].
  exact (Run_holds_one_slot env_fine sample_session World0 res tp' w' H).
Defined.

Lemma Run_runs_rendered_command_witness :
  exists res tp' w',
    Run env_fine sample_session World0 = (res, tp', w')
    /\ commands (trace w')
       = match os_MkdirTemp env_fine "processing-*" with
         | Ok dir =>
             match template_Execute env_fine
                     (CommandTemplate (tpTask sample_session)) dir
                     (OriginalFilename sample_session)
                     (tempOriginalFilePath sample_session) with
             | Ok cmdLine => cmdLine :: commands (trace World0)
             | Err _ => commands (trace World0)
             end
         | Err _ => commands (trace World0)
         end.
Proof.
  destruct (Run env_fine sample_session World0) as [[res tp'] w'] eqn:H.
  exists res, tp', w'. split; [reflexivity|].
  exact (Run_runs_rendered_command env_fine sample_session World0 res tp' w' H).
Defined.

Lemma newJob_creation_failure_passes_through_witness :
  exists res w',
    newJob env_no_temp sample_config (request_of photo) sample_logger World0
    = (res, w')
    /\ uploads (trace w')
       = (Some MultipartFile, Filename photo) :: uploads (trace World0)
    /\ acquired (trace w') = acquired (trace World0)
    /\ commands (trace w') = commands (trace World0)
    /\ checksums w' = checksums World0
    /\ (forall err,
          upstream_result env_no_temp (Some MultipartFile) (Filename photo)
          = Returned err ->
          res = Returned None).
Proof.
  destruct (NewTaskProcessorFromMultipart env_no_temp sample_config photo
              (registered sample_logger photo World0))
    as [[tp|e] w1] eqn:Hn; [vm_compute in Hn; discriminate|].
  exact (newJob_creation_failure_passes_through env_no_temp sample_config
           (request_of photo) sample_logger World0 photo e w1
           eq_refl eq_refl Hn).
Defined.

Lemma newJob_unfinished_conversion_witness :
  exists w',
    newJob env_unstatable sample_config (request_of photo) sample_logger World0
    = (Panicked, w')
    /\ responses (trace w') = responses (trace World0)
    /\ uploads (trace w') = uploads (trace World0)
    /\ checksums w' = checksums World0
    /\ jobs w' = jobs World0.
Proof.
  destruct (NewTaskProcessorFromMultipart env_unstatable sample_config photo
              (registered sample_logger photo World0))
    as [[tp|e] w1] eqn:Hn; [|vm_compute in Hn; discriminate].
  destruct (Run env_unstatable
              (SetLogger tp (jobLoggerOf sample_logger World0))
              (release_form w1)) as [[rr tp2] w2] eqn:Hr.
  assert (rr = Panicked) as ->.
  { pose proof Hn as Hn'. vm_compute in Hn'. injection Hn' as Htp Hw1.
    pose proof Hr as Hr'. rewrite <- Htp, <- Hw1 in Hr'. vm_compute in Hr'.
    by injection Hr' as <- _ _. }
  exact (newJob_unfinished_conversion env_unstatable sample_config
           (request_of photo) sample_logger World0 photo tp w1 Panicked tp2 w2
           eq_refl eq_refl Hn Hr ltac:(discriminate)).
Defined.

Lemma newJob_unreachable_upstream_witness :
  exists res w',
    newJob env_unreachable sample_config (request_of photo) sample_logger
      World0 = (res, w')
    /\ res <> Returned None
    /\ checksums w' = checksums World0
    /\ http_errors (trace w') = http_errors (trace World0)
    /\ jobs w' = jobs World0.
Proof.
  apply (newJob_unreachable_upstream env_unreachable sample_config
           (request_of photo) sample_logger World0 photo);
    [reflexivity | reflexivity | reflexivity |].
  intros file name. by eexists _, _.
Defined.

Lemma newJob_takes_one_id_witness :
  exists res w',
    newJob env_fine sample_config (request_of heic) sample_logger World_busy
    = (res, w')
    /\ jobIdCounter w' = jobIdCounter World_busy + 1.
Proof.
  destruct (newJob env_fine sample_config (request_of heic) sample_logger
              World_busy) as [res w'] eqn:H.
  exists res, w'. split; [reflexivity|].
  exact (newJob_takes_one_id env_fine sample_config (request_of heic)
           sample_logger World_busy res w' H).
Defined.

Lemma newJob_session_released_witness :
  exists res w',
    newJob env_fine sample_config (request_of photo) sample_logger World0
    = (res, w')
    /\ forall p n, fs w' !! p = Some n -> fs World0 !! p = Some n.
Proof.
  assert (tidy env_fine) as Ht
    by (repeat split; try done; intros pat p [= <-]; done).
  destruct (NewTaskProcessorFromMultipart env_fine sample_config photo
              (registered sample_logger photo World0))
    as [[tp|e] w1] eqn:Hn; [|vm_compute in Hn; discriminate].
  destruct (newJob env_fine sample_config (request_of photo) sample_logger
              World0) as [res w'] eqn:H.
  exists res, w'. split; [reflexivity|].
  exact (newJob_session_released env_fine sample_config Ht (request_of photo)
           sample_logger World0 photo tp w1 res w' eq_refl eq_refl Hn H).
Defined.

Lemma newJob_process_releases_before_forwarding_witness :
  exists tp2 w2,
    Run env_fine (SetLogger sample_session (jobLoggerOf sample_logger World0))
      (release_form World0) = (Returned None, tp2, w2)
    /\ (OriginalSize tp2 <= ProcessedSize tp2 ->
        os_RemoveAll env_fine (tempWorkDir tp2) = None ->
        exists e tp3 w3,
          CleanWorkDir env_fine tp2 w2 = (e, tp3, w3)
          /\ (tempWorkDir tp2 <> "" -> fs w3 !! tempWorkDir tp2 = None)
          /\ newJob_process env_fine (jobLoggerOf sample_logger World0) 1
               photo sample_session World0
             = (let '(res, w4) :=
                  newJob_forward env_fine (jobLoggerOf sample_logger World0)
                    photo (Some tp3) (OriginalFile tp2) (Filename photo) true
                    "" w3 in
                (res, tp3, w4)))
    /\ (ProcessedSize tp2 < OriginalSize tp2 ->
        forall originalHash,
          SHA1 env_fine (OriginalFile tp2) = Ok originalHash ->
          os_Remove env_fine (tempOriginalFilePath tp2) = None ->
          exists e tp3 w3,
            CleanOriginalFile env_fine tp2 w2 = (e, tp3, w3)
            /\ OriginalFile tp3 = None
            /\ (tempOriginalFilePath tp2 <> "" ->
                fs w3 !! tempOriginalFilePath tp2 = None)
            /\ newJob_process env_fine (jobLoggerOf sample_logger World0) 1
                 photo sample_session World0
               = (let '(res, w4) :=
                    newJob_forward env_fine
                      (jobLoggerOf sample_logger World0) photo (Some tp3)
                      (ProcessedFile tp2) (ProcessedFilename tp2) false
                      originalHash w3 in
                  (res, tp3, w4))).
Proof.
  destruct (Run env_fine
              (SetLogger sample_session (jobLoggerOf sample_logger World0))
              (release_form World0)) as [[rr tp2] w2] eqn:Hr.
  assert (rr = Returned None) as ->.
  { pose proof Hr as Hr'. vm_compute in Hr'. by injection Hr' as <- _ _. }
  exists tp2, w2. split; [reflexivity|].
  exact (newJob_process_releases_before_forwarding env_fine
           (jobLoggerOf sample_logger World0) 1 photo sample_session World0
           tp2 w2 Hr).
Defined.
